(** * nanoscope: header walker and binary image decoder

    A shallow embedding of [nanoscope/nanoscope.py] (class
    [NanoscopeParser]) and the properties of its header parser and image
    decoder.

    Conventions of the embedding.
    - Python objects that are mutated through several references (the
      per-image dictionaries created by [_read_image_header]) live in a
      store of dictionaries addressed by location; [self.images] maps a
      name to a location, never to a copy.
    - A Python exception is a [Raise] outcome; the state it leaves behind
      is the state at the point of the [raise].
    - The file named by [self.filename] is passed explicitly: the lines a
      text-mode iteration yields (the decoding of the bytes into lines is
      not part of the embedding) and the bytes a binary-mode read sees.
    - Python integers are unbounded. Where [io], [struct] or numpy convert
      one to a 64-bit machine word, and where true division goes through
      a float, the embedding has the limit and the exception of the
      library.
    - [parse_parameter] (module [nanoscope.parameter]) is not part of this
      file's source; it is a section variable. *)

From Equations Require Import Equations.
From stdpp Require Import gmap strings list pretty.
From Stdlib Require Import ZArith Lia.
From Stdlib.Strings Require Import Byte.

Open Scope string_scope.
Open Scope Z_scope.

(** ** Values, exceptions, outcomes *)

(** A header value as the tokenizer hands it over: a number or a text.
    Python integers are unbounded, hence [Z]; floating-point values are not
    modelled. *)
Inductive value :=
| VInt (n : Z)
| VStr (s : string).

#[global] Instance value_eq_dec : EqDecision value.
Proof. solve_decision. Defined.

(** [str(v)], as ['{0}'.format(v)] renders it. *)
Definition format_value (v : value) : string :=
  match v with
  | VInt n => pretty n
  | VStr s => s
  end.

(** The exceptions that can leave the two entry points. [ValueError]
    carries its message; [StructError] is [struct.error]. *)
Inductive exn :=
| ValueError (msg : string)
| KeyError (key : string)
| TypeError
| ZeroDivisionError
| AttributeError
| StructError
| OSError
| OverflowError
| MemoryError.

#[global] Instance exn_eq_dec : EqDecision exn.
Proof. solve_decision. Defined.

Inductive outcome (A : Type) :=
| Ok (a : A)
| Raise (e : exn).
Arguments Ok {A} a.
Arguments Raise {A} e.

Definition is_ok {A} (r : outcome A) : bool :=
  match r with Ok _ => true | Raise _ => false end.

(** ** Parameter records *)

(** Modelled from the spec: the class of the objects [parse_parameter]
    returns is missing from the source. The fields are the attributes
    [nanoscope.py] reads: [type] (compared with ['H'] and ['S']),
    [header] (read on ['H'] records only), [parameter] and [hard_value]
    (read on records that are not ['H']), [internal_designation] (read on
    ['S'] records named ['Image Data'] only). *)
Record ParameterRecord := {
  type : string;
  header : string;
  parameter : string;
  internal_designation : string;
  hard_value : value
}.

(** ** The parser object and the store *)

Abbreviation dict := (gmap string value).
Abbreviation loc := nat.

Inductive io_event :=
| IoOpenText
| IoOpenBinary
| IoSeek (offset : Z)
| IoRead (size : Z).

(** [images] and [config] are the attributes [self.images] and
    [self.config]; [heap] holds the dictionaries [_read_image_header]
    creates; [io_log] records the file operations carried out so far,
    oldest first (a call that is refused for its argument before the file
    is touched leaves no entry). *)
Record state := {
  images : gmap string loc;
  config : dict;
  heap : list dict;
  io_log : list io_event
}.

(** [NanoscopeParser.__init__]. *)
Definition init : state :=
  {| images := ∅; config := ∅; heap := []; io_log := [] |}.

(** The file behind [self.filename]: the lines a text-mode iteration
    yields, the bytes a binary-mode read sees, and two limits of the
    platform it lives on: the largest offset the file system accepts in a
    seek, and the largest size for which a read can allocate its
    buffer. *)
Record file := {
  text_lines : list string;
  raw : list byte;
  max_offset : Z;
  max_read : Z
}.

Definition set_config (k : string) (v : value) (st : state) : state :=
  {| images := images st; config := <[k := v]> (config st);
     heap := heap st; io_log := io_log st |}.

(** [image_config = {}]: a fresh dictionary object. *)
Definition alloc_dict (st : state) : loc * state :=
  (length (heap st),
   {| images := images st; config := config st;
      heap := heap st ++ [∅]; io_log := io_log st |}).

(** [d[k] = v] on the dictionary object at [l]. *)
Definition dict_set (l : loc) (k : string) (v : value) (st : state) : state :=
  {| images := images st; config := config st;
     heap := alter (<[k := v]>) l (heap st); io_log := io_log st |}.

(** [self.images[k] = d] where [d] is the object at [l]. *)
Definition set_image (k : string) (l : loc) (st : state) : state :=
  {| images := <[k := l]> (images st); config := config st;
     heap := heap st; io_log := io_log st |}.

Definition log_io (ev : io_event) (st : state) : state :=
  {| images := images st; config := config st;
     heap := heap st; io_log := io_log st ++ [ev] |}.

(** What the spec calls the Document: everything but the I/O log. *)
Definition document (st : state) : gmap string loc * dict * list dict :=
  (images st, config st, heap st).

(** The dictionary a name is registered with, looked up through the
    store. *)
Definition image_dict (st : state) (name : string) : option dict :=
  l ← images st !! name; heap st !! l.

(** ** Text helpers *)

Definition newline : Ascii.ascii := Ascii.ascii_of_nat 10.

(** [s.rstrip('\n')]. *)
Fixpoint rstrip (s : string) : string :=
  match s with
  | EmptyString => EmptyString
  | String c s' =>
      match rstrip s' with
      | EmptyString =>
          if Ascii.eqb c newline then EmptyString else String c EmptyString
      | r => String c r
      end
  end.

Section Header.

(** The tokenizer of [nanoscope.parameter]; it may raise. *)
Variable parse_parameter : string -> outcome ParameterRecord.

(** The file object [f] that [read_header] opens and hands down is an
    iterator shared by all three functions: each takes the lines not yet
    read and returns, next to its answer, the lines it leaves unread. *)

(** ** [_read_image_header] *)

(** The [for line in f] loop of [_read_image_header]; [image_config] is
    the location of the dictionary under construction. Running out of
    lines falls off the end of the function, which returns [None]. *)
Fixpoint _read_image_header_loop (image_config : loc) (f : list string)
    (st : state) : outcome (option ParameterRecord) * list string * state :=
  match f with
  | [] => (Ok None, [], st)
  | line :: f' =>
      match parse_parameter (rstrip line) with
      | Raise e => (Raise e, f', st)
      | Ok p =>
          if String.eqb (type p) "H" then (Ok (Some p), f', st)
          else if String.eqb (type p) "S" then
            if String.eqb (parameter p) "Image Data" then
              let st1 :=
                dict_set image_config "Image Data"
                         (VStr (internal_designation p)) st in
              let st2 := set_image (internal_designation p) image_config st1 in
              _read_image_header_loop image_config f' st2
            else _read_image_header_loop image_config f' st
          else
            _read_image_header_loop image_config f'
              (dict_set image_config (parameter p) (hard_value p) st)
      end
  end.

Definition _read_image_header (f : list string) (st : state)
    : outcome (option ParameterRecord) * list string * state :=
  let '(image_config, st0) := alloc_dict st in
  _read_image_header_loop image_config f st0.

Lemma _read_image_header_loop_length l f st r f' st' :
  _read_image_header_loop l f st = (r, f', st') ->
  (length f' <= length f)%nat /\
  (forall p, r = Ok (Some p) -> (length f' < length f)%nat).
Proof.
  revert st. induction f as [|line f IH]; intros st H; simpl in H.
  - inversion H; subst. split; [lia | discriminate].
  - destruct (parse_parameter (rstrip line)) as [p|e].
    + destruct (String.eqb (type p) "H").
      { inversion H; subst. simpl. split; intros; lia. }
      destruct (String.eqb (type p) "S").
      * destruct (String.eqb (parameter p) "Image Data");
          apply IH in H; destruct H as [H1 H2]; simpl;
          (split; [lia | intros q Hq; specialize (H2 q Hq); lia]).
      * apply IH in H; destruct H as [H1 H2]; simpl;
          (split; [lia | intros q Hq; specialize (H2 q Hq); lia]).
    + inversion H; subst. simpl. split; [lia | discriminate].
Qed.

Lemma _read_image_header_length f st r f' st' :
  _read_image_header f st = (r, f', st') ->
  (length f' <= length f)%nat /\
  (forall p, r = Ok (Some p) -> (length f' < length f)%nat).
Proof.
  unfold _read_image_header. simpl. apply _read_image_header_loop_length.
Qed.

(** ** [_handle_parameter] *)

(** A value together with the equation that names it, so that the
    recursion below can use what [_read_image_header] returned. *)
Definition inspect {A} (a : A) : {b : A | a = b} := exist _ a eq_refl.

(** The measure of the recursion: the lines left, plus one while the
    argument is a record (the call on [None] raises at once). *)
Definition handle_measure (p : option ParameterRecord) (f : list string) : nat :=
  match p with
  | Some _ => S (length f)
  | None => length f
  end.

(** [_handle_parameter(parameter, f)]. The argument is [None] when
    [_read_image_header] ran out of lines; reading [.type] of [None]
    raises [AttributeError]. *)
Equations? _handle_parameter (p : option ParameterRecord) (f : list string)
    (st : state) : outcome bool * list string * state
    by wf (handle_measure p f) lt :=
  _handle_parameter None f st := (Raise AttributeError, f, st);
  _handle_parameter (Some p) f st with String.eqb (type p) "H" => {
    | true with String.eqb (header p) "File list end" => {
      | true := (Ok true, f, st);
      | false with String.eqb (header p) "Ciao image list" => {
        | true with inspect (_read_image_header f st) => {
          | exist _ (Ok p', f', st') Heq := _handle_parameter p' f' st';
          | exist _ (Raise e, f', st') Heq := (Raise e, f', st') };
        | false := (Ok false, f, st) } };
    | false with String.eqb (type p) "S" => {
      | true := (Ok false, f, st);
      | false := (Ok false, f, set_config (parameter p) (hard_value p) st) } }.
Proof.
  apply _read_image_header_length in Heq. destruct Heq as [H1 H2].
  destruct p' as [q|]; simpl.
  - specialize (H2 q eq_refl). lia.
  - lia.
Qed.

Lemma _handle_parameter_length p f st r f' st' :
  _handle_parameter p f st = (r, f', st') -> (length f' <= length f)%nat.
Proof.
  revert r f' st'.
  funelim (_handle_parameter p f st); intros r f1 st1 Hr;
    try (inversion Hr; subst; lia).
  - (* a section was read and its closing record handled *)
    match goal with
    | IH : forall r f' st', _ = _ -> _ |- _ => apply IH in Hr
    end.
    pose proof (_read_image_header_length _ _ _ _ _ Heq) as Hl. lia.
  - pose proof (_read_image_header_length _ _ _ _ _ Heq) as Hl.
    inversion Hr; subst. lia.
Qed.

(** ** [read_header] *)

(** [parameter.type != 'H' and parameter.parameter == 'Version'] and
    [parameter.hard_value not in ['0x05120130']]. *)
Definition version_rejected (p : ParameterRecord) : bool :=
  negb (String.eqb (type p) "H") && String.eqb (parameter p) "Version"
  && negb (bool_decide (hard_value p = VStr "0x05120130")).

Definition unsupported_version (p : ParameterRecord) : exn :=
  ValueError ("Unsupported file version " ++ format_value (hard_value p)).

(** The [for line in f] loop of [read_header]. The flag tells how the loop
    was left: [true] through [return] (a top-level ['File list end']),
    [false] by running out of lines. The lines left in [f] are returned
    too. *)
Equations? read_header_loop (f : list string) (st : state)
    : outcome bool * list string * state by wf (length f) lt :=
  read_header_loop [] st := (Ok false, [], st);
  read_header_loop (line :: f') st with parse_parameter (rstrip line) => {
    | Raise e := (Raise e, f', st);
    | Ok p with version_rejected p => {
      | true := (Raise (unsupported_version p), f', st);
      | false with inspect (_handle_parameter (Some p) f' st) => {
        | exist _ (Ok true, f'', st') Heq := (Ok true, f'', st');
        | exist _ (Ok false, f'', st') Heq := read_header_loop f'' st';
        | exist _ (Raise e, f'', st') Heq := (Raise e, f'', st') } } }.
Proof.
  apply _handle_parameter_length in Heq. simpl. lia.
Qed.

(** [read_header]: the method returns [None] however the loop was left. *)
Definition read_header (fs : file) (st : state) : outcome unit * state :=
  let '(r, _, st') := read_header_loop (text_lines fs) (log_io IoOpenText st) in
  (match r with Ok _ => Ok tt | Raise e => Raise e end, st').

End Header.

(** ** The section walker as a two-state machine

    The reference against which the recursive functions above are
    compared: one pass over the lines with an explicit state, [Top] or
    inside a section whose dictionary sits at a known location. A header
    record is interpreted the same way in both states: it ends the walk,
    opens a section, or leads back to [Top]. *)

Inductive walker_state :=
| Top
| InSection (image_config : loc).

Section Walker.

Variable parse_parameter : string -> outcome ParameterRecord.

Fixpoint walk (m : walker_state) (f : list string) (st : state)
    : outcome bool * list string * state :=
  match f with
  | [] =>
      match m with
      | Top => (Ok false, [], st)
      | InSection _ => (Raise AttributeError, [], st)
      end
  | line :: f' =>
      match parse_parameter (rstrip line) with
      | Raise e => (Raise e, f', st)
      | Ok p =>
          if String.eqb (type p) "H" then
            if String.eqb (header p) "File list end" then (Ok true, f', st)
            else if String.eqb (header p) "Ciao image list" then
              let '(l, st0) := alloc_dict st in walk (InSection l) f' st0
            else walk Top f' st
          else
            match m with
            | Top =>
                if version_rejected p then
                  (Raise (unsupported_version p), f', st)
                else if String.eqb (type p) "S" then walk Top f' st
                else walk Top f' (set_config (parameter p) (hard_value p) st)
            | InSection l =>
                if String.eqb (type p) "S" then
                  if String.eqb (parameter p) "Image Data" then
                    walk m f'
                      (set_image (internal_designation p) l
                         (dict_set l "Image Data"
                            (VStr (internal_designation p)) st))
                  else walk m f' st
                else walk m f' (dict_set l (parameter p) (hard_value p) st)
            end
      end
  end.

(** The lines [f] tokenize, one by one, into the records [rs]. *)
Definition tokenized (f : list string) (rs : list ParameterRecord) : Prop :=
  Forall2 (fun line p => parse_parameter (rstrip line) = Ok p) f rs.

(** What [_handle_parameter] makes of the answer of
    [_read_image_header]. *)
Definition after_section
    (r : outcome (option ParameterRecord) * list string * state)
    : outcome bool * list string * state :=
  match r with
  | (Ok p', f', st') => _handle_parameter parse_parameter p' f' st'
  | (Raise e, f', st') => (Raise e, f', st')
  end.

(** What the loop of [read_header] makes of the answer of
    [_handle_parameter]. *)
Definition resume (r : outcome bool * list string * state)
    : outcome bool * list string * state :=
  match r with
  | (Ok false, f', st') => read_header_loop parse_parameter f' st'
  | other => other
  end.

End Walker.

(** One turn of the loop of [_read_image_header] on a record that is not
    a header, and the turns for a run of such records. *)
Definition section_step (l : loc) (st : state) (p : ParameterRecord) : state :=
  if String.eqb (type p) "S" then
    if String.eqb (parameter p) "Image Data" then
      set_image (internal_designation p) l
        (dict_set l "Image Data" (VStr (internal_designation p)) st)
    else st
  else dict_set l (parameter p) (hard_value p) st.

Definition run_section (l : loc) (rs : list ParameterRecord) (st : state)
    : state :=
  foldl (section_step l) st rs.

Definition in_section (m : walker_state) : bool :=
  match m with
  | Top => false
  | InSection _ => true
  end.

(** The same turns seen from the dictionary of the section alone. *)
Definition dict_step (d : dict) (p : ParameterRecord) : dict :=
  if String.eqb (type p) "S" then
    if String.eqb (parameter p) "Image Data" then
      <["Image Data" := VStr (internal_designation p)]> d
    else d
  else <[parameter p := hard_value p]> d.

Definition section_dict (rs : list ParameterRecord) (d : dict) : dict :=
  foldl dict_step d rs.

(** Every name in [self.images] refers to a dictionary of the store. *)
Definition wf_state (st : state) : Prop :=
  forall name l, images st !! name = Some l -> (l < length (heap st))%nat.

(** The records of a section body: none of them is a header. *)
Definition section_body (rs : list ParameterRecord) : Prop :=
  Forall (fun p => type p <> "H") rs.

(** ** Header streams, on records

    How a stream of records ends, read off the stream alone: at a
    top-level ['File list end'], by running out of records at top level or
    inside a section, or at a top-level ['Version'] record that the
    version guard refuses. *)

Inductive stream_end :=
| Terminated
| RunsOutAtTop
| RunsOutInSection
| VersionRefused.

Fixpoint classify (in_section : bool) (rs : list ParameterRecord)
    : stream_end :=
  match rs with
  | [] => if in_section then RunsOutInSection else RunsOutAtTop
  | p :: rs' =>
      if String.eqb (type p) "H" then
        if String.eqb (header p) "File list end" then Terminated
        else classify (String.eqb (header p) "Ciao image list") rs'
      else if negb in_section && version_rejected p then VersionRefused
      else classify in_section rs'
  end.

(** The internal designations of the ['Image Data'] string attributes
    that occur inside ['Ciao image list'] sections, up to the top-level
    ['File list end']. *)
Fixpoint observed_designations (in_section : bool)
    (rs : list ParameterRecord) : gset string :=
  match rs with
  | [] => ∅
  | p :: rs' =>
      if String.eqb (type p) "H" then
        if String.eqb (header p) "File list end" then ∅
        else observed_designations
               (String.eqb (header p) "Ciao image list") rs'
      else if in_section && String.eqb (type p) "S"
              && String.eqb (parameter p) "Image Data" then
        {[ internal_designation p ]} ∪ observed_designations in_section rs'
      else observed_designations in_section rs'
  end.

(** ** The binary decoder *)

(** A two-dimensional numpy array: its shape and its elements in row-major
    order. *)
Record ndarray := {
  shape : Z * Z;
  data : list Z
}.

(** [config[k]]. *)
Definition getitem (d : dict) (k : string) : outcome value :=
  match d !! k with
  | Some v => Ok v
  | None => Raise (KeyError k)
  end.

(** A Python integer that fits a signed 64-bit C integer ([off_t],
    [Py_ssize_t], [npy_intp]). *)
Definition fits_int64 (n : Z) : bool := (- 2 ^ 63 <=? n) && (n <? 2 ^ 63).

(** [p / r] rounded to the nearest integer, ties to the even one; [r] is
    positive. *)
Definition round_half_even (p r : Z) : Z :=
  let k := p / r in
  let rem := p mod r in
  if (r <? 2 * rem) || (Z.eqb (2 * rem) r && Z.odd k) then k + 1 else k.

(** Numerator and denominator of [(n / d) / 2 ^ e]. *)
Definition scaled (n d e : Z) : Z * Z :=
  if 0 <=? e then (n, d * 2 ^ e) else (n * 2 ^ (- e), d).

(** [int(n / d)] for positive integers. True division answers the
    binary64 number nearest to the quotient, ties to even; it is
    [m * 2 ^ e] where [e] is chosen so that the quotient over [2 ^ e] has
    53 bits before the binary point and [m] is that number rounded.
    [None] stands for a result of [2 ^ 1024] or more, which is no float.
    [int] then truncates. (Below the normal range a float has fewer bits,
    but it truncates to zero either way.) *)
Definition float_quotient (n d : Z) : option Z :=
  let e0 := Z.log2 n - Z.log2 d - 53 in
  let e :=
    if 2 ^ 53 <=? fst (scaled n d e0) / snd (scaled n d e0) then e0 + 1
    else e0 in
  let m := round_half_even (fst (scaled n d e)) (snd (scaled n d e)) in
  if 1024 <=? Z.log2 m + e then None
  else Some (if 0 <=? e then m * 2 ^ e else m / 2 ^ (- e)).

(** [int(a / b)] under [from __future__ import division]: a float
    quotient, correctly rounded, truncated toward zero. Division of
    integers raises [OverflowError] when the result is too large for a
    float. *)
Definition int_truediv (a b : value) : outcome Z :=
  match a, b with
  | VInt x, VInt y =>
      if Z.eqb y 0 then Raise ZeroDivisionError
      else if Z.eqb x 0 then Ok 0
      else
        match float_quotient (Z.abs x) (Z.abs y) with
        | Some k => Ok (Z.sgn x * Z.sgn y * k)
        | None => Raise OverflowError
        end
  | _, _ => Raise TypeError
  end.

(** One ['h'] item of a ['<'] format: two bytes, low byte first, read as a
    two's complement number. *)
Definition int16_le (b0 b1 : byte) : Z :=
  let u := Z.lor (Z.of_N (Byte.to_N b0)) (Z.shiftl (Z.of_N (Byte.to_N b1)) 8) in
  if u <? 32768 then u else u - 65536.

Fixpoint unpack_h (n : nat) (buf : list byte) : list Z :=
  match n, buf with
  | S n', b0 :: b1 :: buf' => int16_le b0 b1 :: unpack_h n' buf'
  | _, _ => []
  end.

(** [struct.unpack_from('<{0}h'.format(num), buf)]: a negative count is
    not a format, and the buffer must hold at least [2 * num] bytes;
    bytes beyond them are ignored. *)
Definition unpack_from (num : Z) (buf : list byte) : outcome (list Z) :=
  if num <? 0 then Raise StructError
  else if Z.of_nat (length buf) <? 2 * num then Raise StructError
  else Ok (unpack_h (Z.to_nat num) buf).

(** A shape as numpy prints it in its messages: leading entries to
    infer are left out, later ones read [newaxis]. *)
Definition shape_string (r c : Z) : string :=
  if r <? 0 then
    if c <? 0 then "()" else "(" ++ pretty c ++ ")"
  else
    "(" ++ pretty r ++ (if c <? 0 then ",newaxis" else "," ++ pretty c) ++ ")".

Definition reshape_mismatch (size r c : Z) : exn :=
  ValueError ("cannot reshape array of size " ++ pretty size
              ++ " into shape " ++ shape_string r c).

Definition array_too_big : exn :=
  ValueError ("array is too big; `arr.size * arr.dtype.itemsize` is larger "
              ++ "than the maximum possible size.").

(** The bytes of an array of 8-byte items with the given dimensions,
    dimensions of zero left out, as numpy computes them to refuse an
    array that a machine word cannot measure. *)
Definition measured_bytes (r c : Z) : Z :=
  8 * (if Z.eqb r 0 then 1 else r) * (if Z.eqb c 0 then 1 else c).

(** The dimensions [reshape] settles on for [size] elements: a negative
    entry stands for the dimension to infer (numpy documents [-1]). *)
Definition settle_shape (size r c : Z) : option (Z * Z) :=
  if r <? 0 then
    if Z.eqb c 0 || negb (Z.eqb (size mod c) 0) then None
    else Some (size / c, c)
  else if c <? 0 then
    if Z.eqb r 0 || negb (Z.eqb (size mod r) 0) then None
    else Some (r, size / r)
  else if (r * c <? 2 ^ 63) && Z.eqb (r * c) size then Some (r, c)
  else None.

(** [np.array(xs).reshape((r, c))]. The entries of the shape are
    converted in order: a text is a [TypeError], an integer outside the
    machine word a [ValueError]. At most one entry may be negative. *)
Definition reshape (xs : list Z) (r c : value) : outcome ndarray :=
  match r with
  | VStr _ => Raise TypeError
  | VInt r =>
      if negb (fits_int64 r) then
        Raise (ValueError "Maximum allowed dimension exceeded")
      else
        match c with
        | VStr _ => Raise TypeError
        | VInt c =>
            if negb (fits_int64 c) then
              Raise (ValueError "Maximum allowed dimension exceeded")
            else if (r <? 0) && (c <? 0) then
              Raise (ValueError "can only specify one unknown dimension")
            else
              let size := Z.of_nat (length xs) in
              match settle_shape size r c with
              | None => Raise (reshape_mismatch size r c)
              | Some (r', c') =>
                  if 2 ^ 63 <=? measured_bytes r' c' then Raise array_too_big
                  else Ok {| shape := (r', c'); data := xs |}
              end
        end
  end.

(** Computations that may raise and may log file operations. *)
Definition M (A : Type) : Type := state -> outcome A * state.

Definition ret {A} (a : A) : M A := fun st => (Ok a, st).
Definition throw {A} (e : exn) : M A := fun st => (Raise e, st).
Definition bind {A B} (m : M A) (k : A -> M B) : M B :=
  fun st =>
    match m st with
    | (Ok a, st') => k a st'
    | (Raise e, st') => (Raise e, st')
    end.
Definition lift {A} (r : outcome A) : M A := fun st => (r, st).
Definition emit (ev : io_event) : M unit := fun st => (Ok tt, log_io ev st).

#[global] Instance M_ret : MRet M := @ret.
#[global] Instance M_bind : MBind M := fun A B k m => bind m k.

(** [f.seek(v)] on a file opened with ['rb']; answers the new position.
    An offset that does not fit the machine word is refused before the
    file system is asked; the file system refuses a negative offset and
    one beyond its limit. *)
Definition file_seek (limit : Z) (v : value) : M Z :=
  match v with
  | VInt n =>
      if negb (fits_int64 n) then
        throw (ValueError "cannot fit 'int' into an offset-sized integer")
      else
        emit (IoSeek n);;
        if (n <? 0) || (limit <? n) then throw OSError else ret n
  | VStr _ => throw TypeError
  end.

(** The bytes a read of [size] bytes at position [pos] returns: [-1]
    reads to the end of the file, and a read never goes past the end. *)
Definition bytes_read (content : list byte) (pos size : Z) : list byte :=
  if Z.eqb size (-1) then drop (Z.to_nat pos) content
  else take (Z.to_nat size) (drop (Z.to_nat pos) content).

(** The bytes a [bytes] object takes besides its content. *)
Definition bytes_header : Z := 33.

(** [f.read(v)] at position [pos]. A size that does not fit the machine
    word, a size below [-1], a size that with the header of the buffer
    does not fit the machine word, and a size for which no buffer can be
    allocated are refused before anything is read. *)
Definition file_read (limit : Z) (content : list byte) (pos : Z) (v : value)
    : M (list byte) :=
  match v with
  | VInt n =>
      if negb (fits_int64 n) then throw OverflowError
      else if n <? -1 then
        throw (ValueError "read length must be non-negative or -1")
      else if 2 ^ 63 - 1 - bytes_header <? n then throw OverflowError
      else if limit <? n then throw MemoryError
      else
        emit (IoRead n);;
        ret (bytes_read content pos n)
  | VStr _ => throw TypeError
  end.

(** The body of the [with io.open(self.filename, 'rb') as f] block. *)
Definition decode (fs : file) (config : dict) : M ndarray :=
  off ← lift (getitem config "Data offset");
  pos ← file_seek (max_offset fs) off;
  len ← lift (getitem config "Data length");
  bpp ← lift (getitem config "Bytes/pixel");
  num ← lift (int_truediv len bpp);
  len' ← lift (getitem config "Data length");
  buf ← file_read (max_read fs) (raw fs) pos len';
  raw_data ← lift (unpack_from num buf);
  nlines ← lift (getitem config "Number of lines");
  samps ← lift (getitem config "Samps/line");
  lift (reshape raw_data nlines samps).

Definition supported_image_types : list string :=
  ["Height"; "Amplitude"; "Phase"].

(** [read_image_data(image_type)]. A location found in [self.images]
    always holds a dictionary; the empty one stands in for the case that
    cannot arise. *)
Definition read_image_data (fs : file) (image_type : string) : M ndarray :=
  fun st =>
    if negb (existsb (String.eqb image_type) supported_image_types) then
      (Raise (ValueError ("Unsupported image type " ++ image_type)), st)
    else
      match images st !! image_type with
      | None =>
          (Raise (ValueError ("Image type " ++ image_type ++ " not in file.")),
           st)
      | Some l =>
          let config := default ∅ (heap st !! l) in
          (emit IoOpenBinary;; decode fs config) st
      end.

(** The fields [read_image_data] reads from a channel's dictionary. *)
Definition required_fields : list string :=
  ["Data offset"; "Data length"; "Bytes/pixel"; "Number of lines";
   "Samps/line"].

Definition numeric_field (d : dict) (k : string) : bool :=
  match d !! k with
  | Some (VInt _) => true
  | _ => false
  end.

(** All required fields are present and numeric. *)
Definition well_configured (d : dict) : bool :=
  forallb (numeric_field d) required_fields.

(** The failures that a missing or non-numeric required field causes by
    itself: the [KeyError] of a lookup of a missing field, the [TypeError]
    of an operation on a text. *)
Definition malformed_configuration_error (d : dict) (e : exn) : Prop :=
  match e with
  | KeyError k => In k required_fields /\ d !! k = None
  | TypeError =>
      exists k s, In k required_fields /\ d !! k = Some (VStr s)
  | _ => False
  end.

(** The failures of the steps of the decode themselves: an offset that
    does not fit the machine word or that the file system refuses, a
    division by zero or with a result too large for a float, a read size
    that does not fit the machine word, is below [-1] or cannot be
    allocated, a count that is negative or exceeds the bytes read, a
    dimension that does not fit the machine word. *)
Definition decode_step_error (e : exn) : Prop :=
  In e [OSError; ZeroDivisionError; StructError; OverflowError; MemoryError;
        ValueError "cannot fit 'int' into an offset-sized integer";
        ValueError "read length must be non-negative or -1";
        ValueError "Maximum allowed dimension exceeded"].

(** Where the decode uses the fields: the offset in the seek, the length
    and the bytes per pixel in the division, the two dimensions in the
    reshape. *)
Inductive stage :=
| AtSeek
| AtDivision
| AtReshape.

(** The first required field, in the order of use, that is missing or
    holds a text, with the exception that its use raises: the lookups of
    one stage come before its operation. [None] when all five fields are
    numbers. *)
Definition first_fault (d : dict) : option (stage * exn) :=
  match d !! "Data offset" with
  | None => Some (AtSeek, KeyError "Data offset")
  | Some (VStr _) => Some (AtSeek, TypeError)
  | Some (VInt _) =>
      match d !! "Data length", d !! "Bytes/pixel" with
      | None, _ => Some (AtDivision, KeyError "Data length")
      | Some _, None => Some (AtDivision, KeyError "Bytes/pixel")
      | Some (VInt _), Some (VInt _) =>
          match d !! "Number of lines", d !! "Samps/line" with
          | None, _ => Some (AtReshape, KeyError "Number of lines")
          | Some _, None => Some (AtReshape, KeyError "Samps/line")
          | Some (VInt _), Some (VInt _) => None
          | Some _, Some _ => Some (AtReshape, TypeError)
          end
      | Some _, Some _ => Some (AtDivision, TypeError)
      end
  end.

(** The seek of the decode succeeds. *)
Definition seek_succeeds (fs : file) (d : dict) : bool :=
  match d !! "Data offset" with
  | Some (VInt o) =>
      fits_int64 o && negb ((o <? 0) || (max_offset fs <? o))
  | _ => false
  end.

(** A read of [n] bytes is accepted. *)
Definition read_accepts (fs : file) (n : Z) : bool :=
  fits_int64 n && negb (n <? -1)
  && negb (2 ^ 63 - 1 - bytes_header <? n) && negb (max_read fs <? n).

(** The division, the read and the unpacking of the decode succeed. *)
Definition unpack_succeeds (fs : file) (d : dict) : bool :=
  match d !! "Data offset", d !! "Data length", d !! "Bytes/pixel" with
  | Some (VInt o), Some (VInt n), Some (VInt b) =>
      match int_truediv (VInt n) (VInt b) with
      | Ok num =>
          read_accepts fs n
          && is_ok (unpack_from num (bytes_read (raw fs) o n))
      | Raise _ => false
      end
  | _, _, _ => false
  end.

(** The conversion of the shape gets as far as a text in second place. *)
Definition shape_reached (d : dict) : bool :=
  match d !! "Number of lines", d !! "Samps/line" with
  | Some (VInt l), Some (VStr _) => fits_int64 l
  | _, _ => true
  end.

(** The steps of the decode before a stage succeed. *)
Definition reaches (fs : file) (d : dict) (s : stage) : bool :=
  match s with
  | AtSeek => true
  | AtDivision => seek_succeeds fs d
  | AtReshape => seek_succeeds fs d && unpack_succeeds fs d && shape_reached d
  end.

(** A computation that leaves the Document alone and whose answer does
    not depend on the I/O log. *)
Definition quiet {A} (m : M A) : Prop :=
  forall st,
    document (snd (m st)) = document st /\
    forall st2, fst (m st2) = fst (m st).

(** ** A sample tokenizer and sample files

    Used by the examples only: the lines of a few small headers and the
    records they stand for. Any other line is refused. *)

Definition header_record (h : string) : ParameterRecord :=
  {| type := "H"; header := h; parameter := ""; internal_designation := "";
     hard_value := VStr "" |}.

Definition scalar_record (k : string) (v : value) : ParameterRecord :=
  {| type := "P"; header := ""; parameter := k; internal_designation := "";
     hard_value := v |}.

Definition select_record (k d : string) : ParameterRecord :=
  {| type := "S"; header := ""; parameter := k; internal_designation := d;
     hard_value := VStr d |}.

Definition sample_table : list (string * ParameterRecord) :=
  [ ("\*File list", header_record "File list");
    ("\Version: 0x05120130", scalar_record "Version" (VStr "0x05120130"));
    ("\Version: 0x04300000", scalar_record "Version" (VStr "0x04300000"));
    ("\*Ciao scan list", header_record "Ciao scan list");
    ("\*Ciao image list", header_record "Ciao image list");
    ("\Data offset: 4", scalar_record "Data offset" (VInt 4));
    ("\Data length: 8", scalar_record "Data length" (VInt 8));
    ("\Data length: 2", scalar_record "Data length" (VInt 2));
    ("\Data length: 5", scalar_record "Data length" (VInt 5));
    ("\Bytes/pixel: 2", scalar_record "Bytes/pixel" (VInt 2));
    ("\Bytes/pixel: 1", scalar_record "Bytes/pixel" (VInt 1));
    ("\Number of lines: 2", scalar_record "Number of lines" (VInt 2));
    ("\Number of lines: 1", scalar_record "Number of lines" (VInt 1));
    ("\Samps/line: 2", scalar_record "Samps/line" (VInt 2));
    ("\@2:Image Data: S [Height]", select_record "Image Data" "Height");
    ("\@2:Image Data: S [Phase]", select_record "Image Data" "Phase");
    ("\*File list end", header_record "File list end") ].

Definition sample_parse (line : string) : outcome ParameterRecord :=
  match list_find (fun e => fst e = line) sample_table with
  | Some (_, (_, p)) => Ok p
  | None => Raise (ValueError "not a parameter line")
  end.

(** A line as the file iterator yields it, with its line end. *)
Definition nl (s : string) : string := s ++ String newline EmptyString.

(** The limits of the platform of the sample files. *)
Definition sample_max_offset : Z := 2 ^ 40.
Definition sample_max_read : Z := 2 ^ 30.

(** Four bytes that stand for the text of the header. *)
Definition header_bytes : list byte := [x5c; x2a; x0d; x0a].

(** The header of a file with one 2 x 2 height image. *)
Definition sample_header : list string :=
  map nl [ "\*File list"; "\Version: 0x05120130"; "\*Ciao scan list";
           "\*Ciao image list";
           "\Data offset: 4"; "\Data length: 8"; "\Bytes/pixel: 2";
           "\@2:Image Data: S [Height]";
           "\Number of lines: 2"; "\Samps/line: 2";
           "\*File list end" ].

(** A line of control characters, as may follow the header: not a
    parameter line. *)
Definition payload_line : string :=
  String (Ascii.ascii_of_nat 26) (String (Ascii.ascii_of_nat 1) EmptyString).

Definition sample_file : file :=
  {| text_lines := sample_header ++ [payload_line];
     raw := header_bytes ++ [x01; x00; xff; xff; x00; x80; xff; x7f];
     max_offset := sample_max_offset; max_read := sample_max_read |}.

(** A header that declares one byte per pixel: two bytes for a 1 x 2
    image. *)
Definition one_byte_file : file :=
  {| text_lines :=
       map nl [ "\*File list"; "\Version: 0x05120130"; "\*Ciao image list";
                "\Data offset: 4"; "\Data length: 2"; "\Bytes/pixel: 1";
                "\@2:Image Data: S [Height]";
                "\Number of lines: 1"; "\Samps/line: 2";
                "\*File list end" ];
     raw := header_bytes ++ [x01; x00];
     max_offset := sample_max_offset; max_read := sample_max_read |}.

(** A header that declares five bytes of two-byte pixels for a 1 x 2
    image. *)
Definition odd_length_file : file :=
  {| text_lines :=
       map nl [ "\*File list"; "\Version: 0x05120130"; "\*Ciao image list";
                "\Data offset: 4"; "\Data length: 5"; "\Bytes/pixel: 2";
                "\@2:Image Data: S [Height]";
                "\Number of lines: 1"; "\Samps/line: 2";
                "\*File list end" ];
     raw := header_bytes ++ [x01; x00; xfe; xff; x07];
     max_offset := sample_max_offset; max_read := sample_max_read |}.

(** A header without ['Samps/line']. *)
Definition no_samps_lines : list string :=
  map nl [ "\*File list"; "\Version: 0x05120130"; "\*Ciao image list";
           "\Data offset: 4"; "\Data length: 8"; "\Bytes/pixel: 2";
           "\@2:Image Data: S [Height]";
           "\Number of lines: 2";
           "\*File list end" ].

Definition no_samps_file : file :=
  {| text_lines := no_samps_lines;
     raw := header_bytes ++ [x01; x00; xff; xff; x00; x80; xff; x7f];
     max_offset := sample_max_offset; max_read := sample_max_read |}.

(** The same header on a file cut short after two bytes of data. *)
Definition truncated_file : file :=
  {| text_lines := no_samps_lines;
     raw := header_bytes ++ [x01; x00];
     max_offset := sample_max_offset; max_read := sample_max_read |}.

(** Headers that stop early: at top level, and inside a section. *)
Definition unterminated_file : file :=
  {| text_lines := map nl [ "\*File list"; "\Version: 0x05120130" ];
     raw := header_bytes;
     max_offset := sample_max_offset; max_read := sample_max_read |}.

Definition unterminated_section_file : file :=
  {| text_lines :=
       map nl [ "\*File list"; "\Version: 0x05120130"; "\*Ciao image list";
                "\Data offset: 4" ];
     raw := header_bytes;
     max_offset := sample_max_offset; max_read := sample_max_read |}.

(** A header of another format version. *)
Definition old_version_file : file :=
  {| text_lines :=
       map nl [ "\*File list"; "\Version: 0x04300000"; "\*Ciao image list";
                "\Data offset: 4"; "\*File list end" ];
     raw := header_bytes;
     max_offset := sample_max_offset; max_read := sample_max_read |}.

(** The records of the sample headers and the dictionaries they build. *)
Definition sample_records : list ParameterRecord :=
  [ header_record "File list";
    scalar_record "Version" (VStr "0x05120130");
    header_record "Ciao scan list";
    header_record "Ciao image list";
    scalar_record "Data offset" (VInt 4);
    scalar_record "Data length" (VInt 8);
    scalar_record "Bytes/pixel" (VInt 2);
    select_record "Image Data" "Height";
    scalar_record "Number of lines" (VInt 2);
    scalar_record "Samps/line" (VInt 2);
    header_record "File list end" ].

Definition sample_config : dict :=
  list_to_map
    [ ("Data offset", VInt 4); ("Data length", VInt 8);
      ("Bytes/pixel", VInt 2); ("Image Data", VStr "Height");
      ("Number of lines", VInt 2); ("Samps/line", VInt 2) ].

Definition one_byte_config : dict :=
  list_to_map
    [ ("Data offset", VInt 4); ("Data length", VInt 2);
      ("Bytes/pixel", VInt 1); ("Image Data", VStr "Height");
      ("Number of lines", VInt 1); ("Samps/line", VInt 2) ].

Definition no_samps_config : dict :=
  list_to_map
    [ ("Data offset", VInt 4); ("Data length", VInt 8);
      ("Bytes/pixel", VInt 2); ("Image Data", VStr "Height");
      ("Number of lines", VInt 2) ].

(** The state of a fresh parser after [read_header] on a file. *)
Definition parsed (fs : file) : state :=
  snd (read_header sample_parse fs init).

(** ** The accessors, and the Document as values

    [height], [amplitude] and [phase] are [self.images.get(name, None)]:
    the dictionary object registered under the name, here its location,
    or [None]. *)

Definition images_get (st : state) (name : string) : option loc :=
  images st !! name.

Definition height (st : state) : option loc := images_get st "Height".
Definition amplitude (st : state) : option loc := images_get st "Amplitude".
Definition phase (st : state) : option loc := images_get st "Phase".

(** The Document without sharing: every name owns a copy of its
    dictionary. [publish names d] gives the dictionary [d] to each of the
    names. *)
Definition publish (names : list string) (d : dict)
    (channels : gmap string dict) : gmap string dict :=
  foldr (fun n c => <[n := d]> c) channels names.

(** The names registered so far in a section, after one more record. *)
Definition names_step (names : list string) (p : ParameterRecord)
    : list string :=
  if String.eqb (type p) "S" && String.eqb (parameter p) "Image Data"
  then internal_designation p :: names
  else names.

(** The channel dictionaries and the global configuration that a stream
    of records builds, computed on values: [cur] is [None] at top level
    and holds the names and the dictionary of the section otherwise. The
    version guard is left out; it decides whether the stream is read to
    its end, not what is built. *)
Fixpoint document_of (cur : option (list string * dict))
    (rs : list ParameterRecord) (channels : gmap string dict) (g : dict)
    : gmap string dict * dict :=
  match rs with
  | [] => (channels, g)
  | p :: rs' =>
      if String.eqb (type p) "H" then
        if String.eqb (header p) "File list end" then (channels, g)
        else if String.eqb (header p) "Ciao image list" then
          document_of (Some ([], ∅)) rs' channels g
        else document_of None rs' channels g
      else
        match cur with
        | None =>
            if String.eqb (type p) "S" then document_of None rs' channels g
            else document_of None rs' channels
                   (<[parameter p := hard_value p]> g)
        | Some (names, d) =>
            let d' := dict_step d p in
            let names' := names_step names p in
            document_of (Some (names', d')) rs' (publish names' d' channels) g
        end
  end.

(** How the store-based state of a walk and the value-based Document
    correspond: every name sees the same dictionary in both, and inside
    a section the names that refer to its dictionary are the names
    registered in it. *)
Definition represents (m : walker_state) (cur : option (list string * dict))
    (st : state) (channels : gmap string dict) : Prop :=
  (forall n, image_dict st n = channels !! n) /\
  wf_state st /\
  match m, cur with
  | Top, None => True
  | InSection l, Some (names, d) =>
      heap st !! l = Some d /\
      (forall n, images st !! n = Some l <-> n ∈ names)
  | _, _ => False
  end.

(** The dictionaries that the names of [self.images] see, as a map on
    values. *)
Definition channel_view (st : state) : gmap string dict :=
  omap (fun l => heap st !! l) (images st).

(** The decode gets as far as reading the file: the seek succeeds, the
    length and the bytes per pixel are numbers whose division does not
    raise, and the read of that length is accepted. *)
Definition read_reached (fs : file) (d : dict) : bool :=
  seek_succeeds fs d &&
  match d !! "Data length", d !! "Bytes/pixel" with
  | Some (VInt n), Some (VInt b) =>
      is_ok (int_truediv (VInt n) (VInt b)) && read_accepts fs n
  | _, _ => false
  end.

(** More sample files: a header with a line that is not a parameter
    line, a section that holds a ['Version'] record of another format
    version (with and without that record), the sample header without
    line ends, and a section that declares an offset only. *)
Definition bad_line_file : file :=
  {| text_lines :=
       map nl [ "\*File list"; "\Version: 0x05120130" ]
       ++ [payload_line; nl "\*File list end"];
     raw := header_bytes;
     max_offset := sample_max_offset; max_read := sample_max_read |}.

Definition section_version_file : file :=
  {| text_lines :=
       map nl [ "\*File list"; "\*Ciao image list"; "\Version: 0x04300000";
                "\@2:Image Data: S [Height]"; "\*File list end" ];
     raw := header_bytes;
     max_offset := sample_max_offset; max_read := sample_max_read |}.

Definition section_plain_file : file :=
  {| text_lines :=
       map nl [ "\*File list"; "\*Ciao image list";
                "\@2:Image Data: S [Height]"; "\*File list end" ];
     raw := header_bytes;
     max_offset := sample_max_offset; max_read := sample_max_read |}.

Definition bare_lines_file : file :=
  {| text_lines :=
       [ "\*File list"; "\Version: 0x05120130"; "\*Ciao scan list";
         "\*Ciao image list";
         "\Data offset: 4"; "\Data length: 8"; "\Bytes/pixel: 2";
         "\@2:Image Data: S [Height]";
         "\Number of lines: 2"; "\Samps/line: 2";
         "\*File list end"; payload_line ];
     raw := raw sample_file;
     max_offset := sample_max_offset; max_read := sample_max_read |}.

Definition offset_only_file : file :=
  {| text_lines :=
       map nl [ "\*File list"; "\*Ciao image list"; "\Data offset: 4";
                "\@2:Image Data: S [Height]"; "\*File list end" ];
     raw := header_bytes ++ [x01; x00];
     max_offset := sample_max_offset; max_read := sample_max_read |}.

Definition offset_only_config : dict :=
  list_to_map [ ("Data offset", VInt 4); ("Image Data", VStr "Height") ].

(** * Properties *)

Section HeaderFacts.

Variable parse_parameter : string -> outcome ParameterRecord.

Abbreviation handle := (_handle_parameter parse_parameter).
Abbreviation top_loop := (read_header_loop parse_parameter).

(** The defining equations of the two recursive functions, in the shape of
    the Python source. *)
Lemma _handle_parameter_eq po f st :
  handle po f st =
  match po with
  | None => (Raise AttributeError, f, st)
  | Some p =>
      if String.eqb (type p) "H" then
        if String.eqb (header p) "File list end" then (Ok true, f, st)
        else if String.eqb (header p) "Ciao image list" then
          match _read_image_header parse_parameter f st with
          | (Ok p', f', st') => handle p' f' st'
          | (Raise e, f', st') => (Raise e, f', st')
          end
        else (Ok false, f, st)
      else if String.eqb (type p) "S" then (Ok false, f, st)
      else (Ok false, f, set_config (parameter p) (hard_value p) st)
  end.
Proof.
  funelim (handle po f st);
    repeat match goal with
           | H : String.eqb _ _ = _ |- _ => rewrite H
           | H : _read_image_header _ _ _ = _ |- _ => rewrite H
           end; reflexivity.
Qed.

Lemma read_header_loop_eq f st :
  top_loop f st =
  match f with
  | [] => (Ok false, [], st)
  | line :: f' =>
      match parse_parameter (rstrip line) with
      | Raise e => (Raise e, f', st)
      | Ok p =>
          if version_rejected p then (Raise (unsupported_version p), f', st)
          else
            match handle (Some p) f' st with
            | (Ok true, f'', st') => (Ok true, f'', st')
            | (Ok false, f'', st') => top_loop f'' st'
            | (Raise e, f'', st') => (Raise e, f'', st')
            end
      end
  end.
Proof.
  funelim (top_loop f st);
    repeat match goal with
           | H : parse_parameter _ = _ |- _ => rewrite H
           | H : version_rejected _ = _ |- _ => rewrite H
           | H : _handle_parameter _ _ _ _ = _ |- _ => rewrite H
           end; reflexivity.
Qed.

(** *** The recursive functions refine the two-state walker *)

Lemma walk_refined_upto n :
  forall f st, (length f <= n)%nat ->
    top_loop f st = walk parse_parameter Top f st /\
    forall l,
      resume parse_parameter
        (after_section parse_parameter
           (_read_image_header_loop parse_parameter l f st))
      = walk parse_parameter (InSection l) f st.
Proof.
  induction n as [|n IH]; intros f st Hn.
  - destruct f; [|simpl in Hn; lia]. split; [reflexivity|].
    intros l. simpl. rewrite _handle_parameter_eq. reflexivity.
  - destruct f as [|line f'].
    { split; [reflexivity|]. intros l. simpl.
      rewrite _handle_parameter_eq. reflexivity. }
    assert (Hf : (length f' <= n)%nat) by (simpl in Hn; lia).
    assert (Hhdr : forall p st1, String.eqb (type p) "H" = true ->
              resume parse_parameter (handle (Some p) f' st1) =
              if String.eqb (header p) "File list end" then (Ok true, f', st1)
              else if String.eqb (header p) "Ciao image list" then
                let '(l, st0) := alloc_dict st1 in
                walk parse_parameter (InSection l) f' st0
              else walk parse_parameter Top f' st1).
    { intros p st1 Hp. rewrite _handle_parameter_eq, Hp.
      destruct (String.eqb (header p) "File list end"); [reflexivity|].
      destruct (String.eqb (header p) "Ciao image list").
      - unfold _read_image_header. simpl.
        apply (proj2 (IH f' _ Hf)).
      - simpl. apply (proj1 (IH f' _ Hf)). }
    split.
    + rewrite read_header_loop_eq. simpl.
      destruct (parse_parameter (rstrip line)) as [p|e]; [|reflexivity].
      destruct (String.eqb (type p) "H") eqn:Hp.
      * assert (Hv : version_rejected p = false)
          by (unfold version_rejected; rewrite Hp; reflexivity).
        rewrite Hv. transitivity (resume parse_parameter (handle (Some p) f' st)).
        -- unfold resume.
           destruct (handle (Some p) f' st) as [[[[|]|e] f''] st'];
             reflexivity.
        -- exact (Hhdr p st Hp).
      * destruct (version_rejected p); [reflexivity|].
        rewrite _handle_parameter_eq, Hp.
        destruct (String.eqb (type p) "S"); apply (proj1 (IH f' _ Hf)).
    + intros l. simpl.
      destruct (parse_parameter (rstrip line)) as [p|e]; [|reflexivity].
      destruct (String.eqb (type p) "H") eqn:Hp.
      * simpl. apply (Hhdr p st Hp).
      * destruct (String.eqb (type p) "S").
        -- destruct (String.eqb (parameter p) "Image Data");
             apply (proj2 (IH f' _ Hf)).
        -- apply (proj2 (IH f' _ Hf)).
Qed.

(** The loop of [read_header] is the walker started at [Top]. *)
Lemma read_header_loop_walk f st :
  top_loop f st = walk parse_parameter Top f st.
Proof. exact (proj1 (walk_refined_upto (length f) f st (Nat.le_refl _))). Qed.

(** *** The walker on streams *)

Ltac walk_cases :=
  repeat match goal with
         | |- context [match parse_parameter ?x with _ => _ end] =>
             destruct (parse_parameter x) eqn:?
         | |- context [if String.eqb ?a ?b then _ else _] =>
             destruct (String.eqb a b) eqn:?
         | |- context [if version_rejected ?p then _ else _] =>
             destruct (version_rejected p) eqn:?
         | |- context [match ?m with Top => _ | InSection _ => _ end] =>
             destruct m
         end.

(** A walk that runs out of lines at top level goes on, when more lines
    follow, from [Top] in the state it had reached. *)
Lemma walk_exhausted pre : forall m st f' st',
  walk parse_parameter m pre st = (Ok false, f', st') ->
  f' = [] /\
  forall rest,
    walk parse_parameter m (pre ++ rest) st = walk parse_parameter Top rest st'.
Proof.
  induction pre as [|line pre IH]; intros m st f' st' H.
  - destruct m; simpl in H; inversion H; subst. split; reflexivity.
  - simpl in H |- *. revert H. walk_cases; intros H;
      try discriminate; eauto.
Qed.

(** How the walk ends is decided by the records alone, whatever lines
    [rest] follow those that tokenize into the records; a walk that ends
    at ['File list end'] has registered the designations observed in
    sections, and nothing else. *)
Lemma walk_classify f rs :
  tokenized parse_parameter f rs ->
  forall m st rest,
    match classify (in_section m) rs with
    | Terminated =>
        exists f' st',
          walk parse_parameter m (f ++ rest) st = (Ok true, f', st') /\
          dom (images st') =
            dom (images st) ∪ observed_designations (in_section m) rs
    | RunsOutAtTop =>
        exists st',
          walk parse_parameter m (f ++ rest) st
          = walk parse_parameter Top rest st'
    | RunsOutInSection =>
        exists l st',
          walk parse_parameter m (f ++ rest) st
          = walk parse_parameter (InSection l) rest st'
    | VersionRefused =>
        exists p f' st',
          version_rejected p = true /\
          walk parse_parameter m (f ++ rest) st
          = (Raise (unsupported_version p), f', st')
    end.
Proof.
  induction 1 as [|line p f rs Hp Hf IH]; intros m st rest.
  - destruct m; simpl; eauto.
  - simpl. rewrite Hp.
    destruct (String.eqb (type p) "H") eqn:Ht.
    + destruct (String.eqb (header p) "File list end").
      { exists (f ++ rest)%list, st.
        split; [reflexivity | symmetry; apply union_empty_r_L]. }
      destruct (String.eqb (header p) "Ciao image list").
      * simpl. exact (IH (InSection (length (heap st))) _ rest).
      * exact (IH Top st rest).
    + destruct m as [|l]; simpl.
      * destruct (version_rejected p) eqn:Hv; [eauto 6|].
        destruct (String.eqb (type p) "S"); [exact (IH Top st rest)|].
        exact (IH Top _ rest).
      * destruct (String.eqb (type p) "S"); simpl.
        -- destruct (String.eqb (parameter p) "Image Data").
           ++ specialize (IH (InSection l)
                (set_image (internal_designation p) l
                   (dict_set l "Image Data" (VStr (internal_designation p)) st))
                rest).
              simpl in IH.
              destruct (classify true rs); try exact IH.
              destruct IH as (f' & st' & Hw & Hd).
              exists f', st'. split; [exact Hw|].
              rewrite Hd. simpl. rewrite dom_insert_L.
              rewrite (comm_L (∪) {[ _ ]} (dom (images st))).
              symmetry. apply (assoc_L (∪)).
           ++ exact (IH (InSection l) st rest).
        -- exact (IH (InSection l) _ rest).
Qed.

(** *** Inside one section *)

(** Over a section body the loop of [_read_image_header] performs
    [run_section] and goes on with the lines that follow. *)
Lemma read_section_body body rs :
  tokenized parse_parameter body rs -> section_body rs ->
  forall l st rest,
    _read_image_header_loop parse_parameter l (body ++ rest) st =
    _read_image_header_loop parse_parameter l rest (run_section l rs st).
Proof.
  induction 1 as [|line p body rs Hp Hb IH]; intros Hs l st rest.
  - reflexivity.
  - inversion Hs as [|? ? Hh Hs']; subst.
    apply String.eqb_neq in Hh.
    simpl. rewrite Hp, Hh. unfold run_section in *. simpl.
    unfold section_step at 2.
    destruct (String.eqb (type p) "S");
      [destruct (String.eqb (parameter p) "Image Data")|]; apply IH; exact Hs'.
Qed.

End HeaderFacts.

Lemma section_step_heap l st p :
  heap (section_step l st p) = alter (fun d => dict_step d p) l (heap st).
Proof.
  unfold section_step, dict_step.
  destruct (String.eqb (type p) "S");
    [destruct (String.eqb (parameter p) "Image Data")|]; simpl;
    try reflexivity.
  symmetry. apply list_alter_id. reflexivity.
Qed.

Lemma run_section_heap rs : forall l st,
  heap (run_section l rs st) = alter (section_dict rs) l (heap st).
Proof.
  unfold run_section, section_dict.
  induction rs as [|p rs IH]; intros l st; simpl.
  - symmetry. apply list_alter_id. reflexivity.
  - rewrite IH, section_step_heap, list_alter_alter_eq. reflexivity.
Qed.

Lemma run_section_images_keep rs : forall l st name,
  images st !! name = Some l ->
  images (run_section l rs st) !! name = Some l.
Proof.
  unfold run_section.
  induction rs as [|p rs IH]; intros l st name H; simpl; [exact H|].
  apply IH. unfold section_step.
  destruct (String.eqb (type p) "S");
    [destruct (String.eqb (parameter p) "Image Data")|]; simpl; try exact H.
  destruct (decide (internal_designation p = name)) as [->|Hne].
  - apply lookup_insert_eq.
  - rewrite lookup_insert_ne; [exact H | exact Hne].
Qed.

Lemma run_section_images_reg rs : forall l st p,
  p ∈ rs -> type p = "S" -> parameter p = "Image Data" ->
  images (run_section l rs st) !! internal_designation p = Some l.
Proof.
  unfold run_section.
  induction rs as [|r rs IH]; intros l st p Hin Ht Hn.
  - inversion Hin.
  - simpl. apply elem_of_cons in Hin. destruct Hin as [->|Hin].
    + apply (run_section_images_keep rs). unfold section_step.
      apply String.eqb_eq in Ht, Hn. rewrite Ht, Hn. simpl.
      apply lookup_insert_eq.
    + apply IH; assumption.
Qed.

Lemma dict_step_keeps d p k :
  is_Some (d !! k) -> is_Some (dict_step d p !! k).
Proof.
  intros H. unfold dict_step.
  destruct (String.eqb (type p) "S");
    [destruct (String.eqb (parameter p) "Image Data")|]; try exact H.
  - destruct (decide ("Image Data" = k)) as [<-|Hne].
    + rewrite lookup_insert_eq. eauto.
    + rewrite lookup_insert_ne; assumption.
  - destruct (decide (parameter p = k)) as [<-|Hne].
    + rewrite lookup_insert_eq. eauto.
    + rewrite lookup_insert_ne; assumption.
Qed.

Lemma section_dict_keeps rs : forall d k,
  is_Some (d !! k) -> is_Some (section_dict rs d !! k).
Proof.
  unfold section_dict. induction rs as [|p rs IH]; intros d k H; simpl.
  - exact H.
  - apply IH, dict_step_keeps, H.
Qed.

(** Every scalar record of the section has its name as a key. *)
Lemma section_dict_scalar rs : forall d q,
  q ∈ rs -> type q <> "S" -> is_Some (section_dict rs d !! parameter q).
Proof.
  induction rs as [|p rs IH]; intros d q Hin Hq.
  - inversion Hin.
  - apply elem_of_cons in Hin. destruct Hin as [->|Hin].
    + apply (section_dict_keeps rs). unfold dict_step.
      apply String.eqb_neq in Hq. rewrite Hq.
      rewrite lookup_insert_eq. eauto.
    + apply (IH (dict_step d p)); assumption.
Qed.

(** The last scalar record of a run decides the value under its name. *)
Lemma section_dict_last rs q d :
  type q <> "S" ->
  section_dict (rs ++ [q]) d !! parameter q = Some (hard_value q).
Proof.
  intros Hq. unfold section_dict. rewrite foldl_app. simpl.
  unfold dict_step at 1. apply String.eqb_neq in Hq. rewrite Hq.
  apply lookup_insert_eq.
Qed.

(** ** The header parser *)

Section HeaderClaims.

Variable parse_parameter : string -> outcome ParameterRecord.

Lemma read_header_walk fs st :
  read_header parse_parameter fs st =
  let '(r, _, st') :=
    walk parse_parameter Top (text_lines fs) (log_io IoOpenText st) in
  (match r with Ok _ => Ok tt | Raise e => Raise e end, st').
Proof. unfold read_header. rewrite read_header_loop_walk. reflexivity. Qed.

(** C3. A record that the loop of [read_header] itself consumes (the
    lines [pre] before it, run alone, leave that loop by running out),
    that is not a header, is named ['Version'] and whose hard value is
    not the string ['0x05120130'], makes [read_header] raise the
    unsupported-version [ValueError] at once: the lines after it are
    still unread and the state is the one reached after [pre]. *)
Theorem version_guard_stops_at_once fs pre line rest p st st' :
  text_lines fs = (pre ++ line :: rest)%list ->
  read_header_loop parse_parameter pre (log_io IoOpenText st)
    = (Ok false, [], st') ->
  parse_parameter (rstrip line) = Ok p ->
  type p <> "H" ->
  parameter p = "Version" ->
  hard_value p <> VStr "0x05120130" ->
  read_header_loop parse_parameter (text_lines fs) (log_io IoOpenText st)
    = (Raise (ValueError ("Unsupported file version "
                          ++ format_value (hard_value p))), rest, st') /\
  read_header parse_parameter fs st
    = (Raise (ValueError ("Unsupported file version "
                          ++ format_value (hard_value p))), st').
Proof.
  intros Hf Hpre Hp Ht Hn Hv.
  assert (Hloop :
    read_header_loop parse_parameter (text_lines fs) (log_io IoOpenText st)
    = (Raise (unsupported_version p), rest, st')).
  { rewrite read_header_loop_walk in *. rewrite Hf.
    destruct (walk_exhausted parse_parameter _ _ _ _ _ Hpre) as [_ Happ].
    rewrite Happ. simpl. rewrite Hp.
    apply String.eqb_neq in Ht. rewrite Ht.
    assert (Hr : version_rejected p = true).
    { unfold version_rejected. rewrite Ht, Hn. simpl.
      rewrite bool_decide_eq_false_2; [reflexivity | exact Hv]. }
    rewrite Hr. reflexivity. }
  split; [exact Hloop|].
  unfold read_header. rewrite Hloop. reflexivity.
Qed.

(** The key set of [self.images] grows by the designations observed. *)
Lemma read_header_images_dom fs hdr rest rs st :
  text_lines fs = (hdr ++ rest)%list ->
  tokenized parse_parameter hdr rs ->
  classify false rs = Terminated ->
  exists st',
    read_header parse_parameter fs st = (Ok tt, st') /\
    dom (images st') = dom (images st) ∪ observed_designations false rs.
Proof.
  intros Hf Htok Hc.
  pose proof (walk_classify parse_parameter _ _ Htok Top
                (log_io IoOpenText st) rest) as Hw.
  simpl in Hw. rewrite Hc in Hw. destruct Hw as (f' & st' & Hw & Hd).
  exists st'. rewrite read_header_walk, Hf, Hw.
  split; [reflexivity | exact Hd].
Qed.

(** C4. On a file whose first lines [hdr] tokenize into records that
    reach a top-level ['File list end'] (whatever follows them),
    [read_header] on a fresh parser returns, and the keys of
    [self.images] are exactly the internal designations of the
    ['Image Data'] string attributes met inside ['Ciao image list']
    sections; a section without one adds no key. *)
Theorem read_header_channel_map fs hdr rest rs :
  text_lines fs = (hdr ++ rest)%list ->
  tokenized parse_parameter hdr rs ->
  classify false rs = Terminated ->
  exists st',
    read_header parse_parameter fs init = (Ok tt, st') /\
    dom (images st') = observed_designations false rs.
Proof.
  intros Hf Htok Hc.
  destruct (read_header_images_dom fs hdr rest rs init Hf Htok Hc)
    as (st' & Hr & Hd).
  exists st'. split; [exact Hr|].
  rewrite Hd. simpl. rewrite dom_empty_L. apply union_empty_l_L.
Qed.

Lemma tokenized_snoc f rs line p :
  tokenized parse_parameter f rs ->
  parse_parameter (rstrip line) = Ok p ->
  tokenized parse_parameter (f ++ [line])%list (rs ++ [p])%list.
Proof.
  intros Hf Hp. apply Forall2_app; [exact Hf|].
  constructor; [exact Hp | constructor].
Qed.

Lemma section_body_snoc rs p :
  section_body rs -> type p <> "H" -> section_body (rs ++ [p])%list.
Proof.
  intros Hs Hp. apply Forall_app. split; [exact Hs|].
  constructor; [exact Hp | constructor].
Qed.

Lemma heap_alloc_new st : heap (snd (alloc_dict st)) !! length (heap st) = Some ∅.
Proof.
  simpl. rewrite lookup_app_r by lia. rewrite Nat.sub_diag. reflexivity.
Qed.

(** The state at the end of a section body, whatever follows it. *)
Lemma _read_image_header_body body rs st :
  tokenized parse_parameter body rs -> section_body rs ->
  let l := length (heap st) in
  let st' := run_section l rs (snd (alloc_dict st)) in
  (forall rest,
     _read_image_header parse_parameter (body ++ rest)%list st =
     _read_image_header_loop parse_parameter l rest st') /\
  heap st' !! l = Some (section_dict rs ∅) /\
  (forall l', l' <> l -> heap st' !! l' = heap st !! l').
Proof.
  intros Htok Hs l st'. split; [|split].
  - intros rest. unfold _read_image_header. simpl.
    apply (read_section_body parse_parameter body rs Htok Hs).
  - unfold st'. rewrite run_section_heap, list_lookup_alter_eq.
    unfold l. rewrite heap_alloc_new. reflexivity.
  - intros l' Hl'. unfold st'. rewrite run_section_heap.
    rewrite list_lookup_alter_ne by congruence. simpl.
    destruct (decide (l' < length (heap st))%nat).
    + apply lookup_app_l. assumption.
    + rewrite !lookup_ge_None_2; [reflexivity | lia |].
      rewrite length_app. simpl. unfold l in Hl'. lia.
Qed.

(** C6. In a section, once the ['Image Data'] string attribute [p] has
    been consumed (after the lines [pre], whatever lines follow), the
    dictionary under construction is the one registered under the
    designation of [p]; and once a later scalar record [q] of the same
    section has been consumed, the designation still refers to the same
    dictionary object, which now holds the value of [q] under its name. *)
Theorem image_data_registers_at_once
    pre ps line p post qs line2 q st :
  tokenized parse_parameter pre ps -> section_body ps ->
  parse_parameter (rstrip line) = Ok p ->
  type p = "S" -> parameter p = "Image Data" ->
  tokenized parse_parameter post qs -> section_body qs ->
  parse_parameter (rstrip line2) = Ok q ->
  type q <> "H" -> type q <> "S" ->
  let l := length (heap st) in
  exists st1 st2 cfg,
    (forall rest,
       _read_image_header parse_parameter (pre ++ line :: rest)%list st =
       _read_image_header_loop parse_parameter l rest st1) /\
    images st1 !! internal_designation p = Some l /\
    is_Some (heap st1 !! l) /\
    (forall rest,
       _read_image_header_loop parse_parameter l
         (post ++ line2 :: rest)%list st1 =
       _read_image_header_loop parse_parameter l rest st2) /\
    images st2 !! internal_designation p = Some l /\
    heap st2 !! l = Some cfg /\
    image_dict st2 (internal_designation p) = Some cfg /\
    cfg !! parameter q = Some (hard_value q).
Proof.
  intros Hpre Hps Hp Htp Hnp Hpost Hqs Hq Hqh Hqs' l.
  assert (HpH : type p <> "H") by (rewrite Htp; discriminate).
  pose proof (tokenized_snoc _ _ _ _ Hpre Hp) as Htok1.
  pose proof (section_body_snoc _ _ Hps HpH) as Hbody1.
  destruct (_read_image_header_body _ _ st Htok1 Hbody1) as (Hrun1 & Hheap1 & _).
  change (length (heap st)) with l in Hrun1, Hheap1.
  pose proof (tokenized_snoc _ _ _ _ Hpost Hq) as Htok2.
  pose proof (section_body_snoc _ _ Hqs Hqh) as Hbody2.
  set (st1 := run_section l (ps ++ [p]) (snd (alloc_dict st))) in *.
  set (st2 := run_section l (qs ++ [q]) st1).
  assert (Himg1 : images st1 !! internal_designation p = Some l).
  { apply run_section_images_reg; [|exact Htp|exact Hnp].
    apply elem_of_app. right. apply list_elem_of_singleton. reflexivity. }
  assert (Hheap2 : heap st2 !! l
                   = Some (section_dict (qs ++ [q]) (section_dict (ps ++ [p]) ∅))).
  { unfold st2. rewrite run_section_heap, list_lookup_alter_eq.
    rewrite Hheap1. reflexivity. }
  assert (Himg2 : images st2 !! internal_designation p = Some l)
    by (apply run_section_images_keep, Himg1).
  exists st1, st2, (section_dict (qs ++ [q]) (section_dict (ps ++ [p]) ∅)).
  repeat split.
  - intros rest. rewrite <- (Hrun1 rest), <- app_assoc. reflexivity.
  - exact Himg1.
  - rewrite Hheap1. eauto.
  - intros rest. unfold st2.
    rewrite <- (read_section_body parse_parameter _ _ Htok2 Hbody2 l st1 rest).
    rewrite <- app_assoc. reflexivity.
  - exact Himg2.
  - exact Hheap2.
  - unfold image_dict. rewrite Himg2. simpl. exact Hheap2.
  - apply section_dict_last, Hqs'.
Qed.

(** C10. At the end of a section body, every designation carried by an
    ['Image Data'] string attribute of the section refers to the one
    dictionary created for the section, which holds a key for every scalar
    record of the section; a designation that was registered before now
    refers to this new dictionary, built from this section alone, while
    the dictionary it referred to is left as it was. *)
Theorem section_designations_share_one_dict body rs st :
  tokenized parse_parameter body rs -> section_body rs -> wf_state st ->
  let l := length (heap st) in
  exists st',
    (forall rest,
       _read_image_header parse_parameter (body ++ rest)%list st =
       _read_image_header_loop parse_parameter l rest st') /\
    forall p, p ∈ rs -> type p = "S" -> parameter p = "Image Data" ->
      images st' !! internal_designation p = Some l /\
      image_dict st' (internal_designation p) = Some (section_dict rs ∅) /\
      (forall q, q ∈ rs -> type q <> "H" -> type q <> "S" ->
         is_Some (section_dict rs ∅ !! parameter q)) /\
      (forall l_old, images st !! internal_designation p = Some l_old ->
         l_old <> l /\ heap st' !! l_old = heap st !! l_old).
Proof.
  intros Htok Hs Hwf l.
  destruct (_read_image_header_body _ _ st Htok Hs) as (Hrun & Hheap & Hother).
  change (length (heap st)) with l in Hrun, Hheap, Hother.
  exists (run_section l rs (snd (alloc_dict st))).
  split; [exact Hrun|].
  intros p Hin Ht Hn.
  assert (Himg : images (run_section l rs (snd (alloc_dict st)))
                   !! internal_designation p = Some l)
    by (apply run_section_images_reg; assumption).
  repeat split.
  - exact Himg.
  - unfold image_dict. rewrite Himg. simpl. exact Hheap.
  - intros q Hq _ Hqs. apply section_dict_scalar; assumption.
  - apply Hwf in H. unfold l. lia.
  - apply Hother. apply Hwf in H. unfold l. lia.
Qed.

(** [wf_state] is an invariant of the walk, hence of [read_header]. *)
Lemma walk_wf f : forall m st r f' st',
  wf_state st ->
  (forall l, m = InSection l -> (l < length (heap st))%nat) ->
  walk parse_parameter m f st = (r, f', st') -> wf_state st'.
Proof.
  induction f as [|line f IH]; intros m st r f' st' Hwf Hm H.
  - destruct m; inversion H; subst; exact Hwf.
  - simpl in H.
    destruct (parse_parameter (rstrip line)) as [p|e];
      [|inversion H; subst; exact Hwf].
    destruct (String.eqb (type p) "H").
    + destruct (String.eqb (header p) "File list end");
        [inversion H; subst; exact Hwf|].
      destruct (String.eqb (header p) "Ciao image list").
      * simpl in H. refine (IH _ _ _ _ _ _ _ H).
        -- intros name l Hl. simpl in *. apply Hwf in Hl.
           rewrite length_app. simpl. lia.
        -- intros l Hl. inversion Hl; subst. simpl.
           rewrite length_app. simpl. lia.
      * refine (IH _ _ _ _ _ Hwf _ H). intros; discriminate.
    + destruct m as [|l].
      * destruct (version_rejected p); [inversion H; subst; exact Hwf|].
        destruct (String.eqb (type p) "S");
          (refine (IH _ _ _ _ _ _ _ H); [|intros; discriminate]); exact Hwf.
      * assert (Hl : (l < length (heap st))%nat) by (apply Hm; reflexivity).
        destruct (String.eqb (type p) "S");
          [destruct (String.eqb (parameter p) "Image Data")|];
          refine (IH _ _ _ _ _ _ _ H);
          try exact Hwf; try exact Hm.
        -- intros name l' Hl'. unfold set_image, dict_set in *.
           cbn [images heap] in *. rewrite length_alter.
           destruct (decide (internal_designation p = name)) as [<-|Hne].
           ++ rewrite lookup_insert_eq in Hl'. inversion Hl'; subst. exact Hl.
           ++ rewrite lookup_insert_ne in Hl' by exact Hne. eapply Hwf, Hl'.
        -- intros l' Hl'. inversion Hl'; subst. unfold set_image, dict_set.
           cbn [heap]. rewrite length_alter. exact Hl.
        -- intros name l' Hl'. unfold dict_set in *. cbn [images heap] in *.
           rewrite length_alter. eapply Hwf, Hl'.
        -- intros l' Hl'. inversion Hl'; subst. unfold dict_set.
           cbn [heap]. rewrite length_alter. exact Hl.
Qed.

Lemma read_header_wf fs st r st' :
  wf_state st -> read_header parse_parameter fs st = (r, st') -> wf_state st'.
Proof.
  intros Hwf H. rewrite read_header_walk in H.
  destruct (walk parse_parameter Top (text_lines fs) (log_io IoOpenText st))
    as [[r0 f0] st0] eqn:Hw.
  inversion H; subst.
  refine (walk_wf _ _ _ _ _ _ _ _ Hw); [exact Hwf | intros; discriminate].
Qed.

End HeaderClaims.

(** ** The image decoder *)

Lemma quiet_ret {A} (a : A) : quiet (ret a).
Proof. intros st. split; reflexivity. Qed.

Lemma quiet_throw {A} e : quiet (@throw A e).
Proof. intros st. split; reflexivity. Qed.

Lemma quiet_lift {A} (r : outcome A) : quiet (lift r).
Proof. intros st. split; reflexivity. Qed.

Lemma quiet_emit ev : quiet (emit ev).
Proof. intros st. split; reflexivity. Qed.

Lemma quiet_bind {A B} (m : M A) (k : A -> M B) :
  quiet m -> (forall a, quiet (k a)) -> quiet (bind m k).
Proof.
  intros Hm Hk st. unfold bind.
  destruct (Hm st) as [Hd Hr]. split.
  - destruct (m st) as [[a|e] st1]; simpl in *; [|exact Hd].
    destruct (Hk a st1) as [Hd1 _]. rewrite Hd1. exact Hd.
  - intros st2. specialize (Hr st2).
    destruct (m st) as [[a|e] st1], (m st2) as [[a2|e2] st3];
      simpl in *; try congruence.
    inversion Hr; subst. apply (Hk a st1).
Qed.

Lemma quiet_file_seek limit v : quiet (file_seek limit v).
Proof.
  destruct v as [n|s]; unfold file_seek; [|apply quiet_throw].
  destruct (negb (fits_int64 n)); [apply quiet_throw|].
  apply quiet_bind; [apply quiet_emit|]. intros _.
  destruct (_ || _); [apply quiet_throw | apply quiet_ret].
Qed.

Lemma quiet_file_read limit content pos v :
  quiet (file_read limit content pos v).
Proof.
  destruct v as [n|s]; unfold file_read; [|apply quiet_throw].
  destruct (negb (fits_int64 n)); [apply quiet_throw|].
  destruct (n <? -1); [apply quiet_throw|].
  destruct (_ <? n); [apply quiet_throw|].
  destruct (limit <? n); [apply quiet_throw|].
  apply quiet_bind; [apply quiet_emit|]. intros _. apply quiet_ret.
Qed.

Lemma quiet_decode fs cfg : quiet (decode fs cfg).
Proof.
  unfold decode.
  repeat (apply quiet_bind;
          [first [apply quiet_lift | apply quiet_file_seek
                 | apply quiet_file_read] | intros ?]).
  apply quiet_lift.
Qed.

Lemma read_image_data_document fs image_type st :
  document (snd (read_image_data fs image_type st)) = document st.
Proof.
  unfold read_image_data.
  destruct (negb _); [reflexivity|].
  destruct (images st !! image_type) as [l|]; [|reflexivity].
  pose proof (quiet_bind _ _ (quiet_emit IoOpenBinary)
                (fun _ => quiet_decode fs (default ∅ (heap st !! l)))) as Hq.
  apply (Hq st).
Qed.

Lemma read_image_data_same_document fs image_type st1 st2 :
  document st1 = document st2 ->
  fst (read_image_data fs image_type st1) =
  fst (read_image_data fs image_type st2).
Proof.
  intros Hd. unfold document in Hd. inversion Hd as [[Hi Hc Hh]].
  unfold read_image_data. rewrite Hi, Hh.
  destruct (negb _); [reflexivity|].
  destruct (images st2 !! image_type) as [l|]; [|reflexivity].
  pose proof (quiet_bind _ _ (quiet_emit IoOpenBinary)
                (fun _ => quiet_decode fs (default ∅ (heap st2 !! l)))) as Hq.
  apply (Hq st2).
Qed.

(** C7. A name outside [Height], [Amplitude], [Phase] is refused with the
    unsupported-type [ValueError]; a name of the three that is not a key
    of [self.images] with the not-in-file [ValueError]. Either way the
    state, I/O log included, is the one before the call: the file was not
    opened, let alone read. *)
Theorem read_image_data_refuses fs image_type st :
  (~ In image_type supported_image_types ->
   read_image_data fs image_type st =
   (Raise (ValueError ("Unsupported image type " ++ image_type)), st)) /\
  (In image_type supported_image_types ->
   images st !! image_type = None ->
   read_image_data fs image_type st =
   (Raise (ValueError ("Image type " ++ image_type ++ " not in file.")), st)).
Proof.
  assert (Hex : existsb (String.eqb image_type) supported_image_types = true
                <-> In image_type supported_image_types).
  { rewrite existsb_exists. split.
    - intros (x & Hx & He). apply String.eqb_eq in He. subst. exact Hx.
    - intros Hin. exists image_type. split; [exact Hin|].
      apply String.eqb_refl. }
  unfold read_image_data. split.
  - intros Hn.
    destruct (existsb _ _) eqn:He; [|reflexivity].
    exfalso. apply Hn, Hex. reflexivity.
  - intros Hin Hnone. apply Hex in Hin. rewrite Hin, Hnone. reflexivity.
Qed.

(** C8. A call of [read_image_data] leaves [self.images], [self.config]
    and every dictionary as they were, and a second call on the same file
    answers what the first one did: the same array or the same
    exception. *)
Theorem read_image_data_idempotent fs image_type st :
  document (snd (read_image_data fs image_type st)) = document st /\
  fst (read_image_data fs image_type (snd (read_image_data fs image_type st)))
  = fst (read_image_data fs image_type st).
Proof.
  split.
  - apply read_image_data_document.
  - apply read_image_data_same_document, read_image_data_document.
Qed.

(** *** True division

    Below [2 ^ 53] every integer is a float and the rounding of the
    quotient never reaches the next integer: [int(a / b)] is the
    truncated quotient. *)

Lemma round_half_even_cases p r :
  round_half_even p r = p / r \/
  (round_half_even p r = p / r + 1 /\ r <= 2 * (p mod r)).
Proof.
  unfold round_half_even.
  generalize (p / r) (p mod r). intros k rm.
  destruct (Z.ltb_spec r (2 * rm)); cbn [orb andb];
    [right; split; [reflexivity | lia]|].
  destruct (Z.eqb_spec (2 * rm) r); cbn [orb andb]; [|left; reflexivity].
  destruct (Z.odd k); [right; split; [reflexivity | lia] | left; reflexivity].
Qed.

Lemma float_quotient_small n d :
  0 < n < 2 ^ 53 -> 0 < d < 2 ^ 53 -> float_quotient n d = Some (n / d).
Proof.
  intros Hn Hd. unfold float_quotient.
  assert (Hln : 0 <= Z.log2 n <= 52).
  { split; [apply Z.log2_nonneg|].
    assert (Z.log2 n < 53) by (apply Z.log2_lt_pow2; lia). lia. }
  assert (Hld : 0 <= Z.log2 d <= 52).
  { split; [apply Z.log2_nonneg|].
    assert (Z.log2 d < 53) by (apply Z.log2_lt_pow2; lia). lia. }
  assert (Hdlt : d < 2 ^ (Z.log2 d + 1)).
  { apply (Z.log2_spec d). lia. }
  set (e0 := Z.log2 n - Z.log2 d - 53).
  set (e := if _ <=? _ then e0 + 1 else e0).
  assert (He : e0 <= e <= e0 + 1) by (unfold e; destruct (_ <=? _); lia).
  clearbody e. unfold e0 in He. clear e0.
  destruct (Z.eq_dec e 0) as [->|Hne].
  - assert (Hd1 : d = 1).
    { assert (Hl0 : Z.log2 d = 0) by lia. rewrite Hl0 in Hdlt.
      change (2 ^ (0 + 1)) with 2 in Hdlt. lia. }
    subst d. unfold scaled. change (0 <=? 0) with true. cbv iota.
    change (1 * 2 ^ 0) with 1. unfold fst, snd.
    unfold round_half_even. rewrite Z.div_1_r, Z.mod_1_r.
    change (1 <? 2 * 0) with false. change (Z.eqb (2 * 0) 1) with false.
    cbv iota. simpl orb. cbv iota.
    destruct (Z.leb_spec 1024 (Z.log2 n + 0)); [lia|].
    f_equal. change (2 ^ 0) with 1. lia.
  - assert (He0 : e < 0) by lia.
    unfold scaled. destruct (Z.leb_spec 0 e); [lia|]. unfold fst, snd.
    set (T := 2 ^ (- e)).
    assert (HT2 : 2 <= T).
    { change 2 with (2 ^ 1) at 1. apply Z.pow_le_mono_r; lia. }
    assert (HdT : d < 2 * T).
    { unfold T. rewrite <- Z.pow_succ_r by lia.
      eapply Z.lt_le_trans; [exact Hdlt|].
      apply Z.pow_le_mono_r; lia. }
    assert (HTup : T <= 2 ^ 105).
    { apply Z.pow_le_mono_r; lia. }
    assert (Hkq : n * T / d / T = n / d).
    { rewrite Z.div_div by lia.
      rewrite Z.div_mul_cancel_r by lia. reflexivity. }
    pose proof (Z.div_mod (n * T) d ltac:(lia)) as Hdm.
    pose proof (Z.mod_pos_bound (n * T) d ltac:(lia)) as Hrem.
    pose proof (Z.div_mod n d ltac:(lia)) as Hdm0.
    pose proof (Z.mod_pos_bound n d ltac:(lia)) as Hrem0.
    assert (Hk0 : 0 <= n * T / d) by (apply Z.div_pos; nia).
    assert (Hkup : n * T / d <= n * T).
    { apply Z.div_le_upper_bound; nia. }
    assert (HnT : n * T < 2 ^ 158).
    { change (2 ^ 158) with (2 ^ 53 * 2 ^ 105). nia. }
    set (m := round_half_even (n * T) d).
    assert (Hm : 0 <= m <= n * T / d + 1 /\ m / T = n / d).
    { destruct (round_half_even_cases (n * T) d) as [Hm|[Hm Hhalf]];
        fold m in Hm; rewrite Hm.
      - split; [lia | exact Hkq].
      - split; [lia|].
        set (k := n * T / d) in *. set (q := n / d) in *.
        set (rm := (n * T) mod d) in *. set (r0 := n mod d) in *.
        assert (Hlow : q * T <= k).
        { assert (d * (q * T) < d * (k + 1)) by nia.
          assert (q * T < k + 1) by (apply (Z.mul_lt_mono_pos_l d); lia).
          lia. }
        assert (Hup : k + 1 < (q + 1) * T).
        { assert (d * (k + 1) < d * ((q + 1) * T)) by nia.
          apply (Z.mul_lt_mono_pos_l d); lia. }
        symmetry. apply (Z.div_unique _ _ q (k + 1 - q * T)); lia. }
    destruct Hm as [Hmr Hmq].
    assert (Hlog : Z.log2 m < 159).
    { destruct (Z.eq_dec m 0) as [->|Hm0]; [reflexivity|].
      apply Z.log2_lt_pow2; [lia|].
      change (2 ^ 159) with (2 * 2 ^ 158). lia. }
    destruct (Z.leb_spec 1024 (Z.log2 m + e)); [lia|].
    rewrite Hmq. reflexivity.
Qed.

Lemma int_truediv_small x y :
  y <> 0 -> Z.abs x < 2 ^ 53 -> Z.abs y < 2 ^ 53 ->
  int_truediv (VInt x) (VInt y) = Ok (x ÷ y).
Proof.
  intros Hy Hx Hy53. unfold int_truediv.
  destruct (Z.eqb_spec y 0); [contradiction|].
  destruct (Z.eqb_spec x 0) as [->|Hx0].
  - rewrite Z.quot_0_l by exact Hy. reflexivity.
  - rewrite float_quotient_small by lia.
    rewrite (Z.quot_div x y) by exact Hy. reflexivity.
Qed.

Lemma int_truediv_error x y e :
  int_truediv (VInt x) (VInt y) = Raise e ->
  e = ZeroDivisionError \/ e = OverflowError.
Proof.
  unfold int_truediv.
  destruct (Z.eqb y 0); [intros H; inversion H; auto|].
  destruct (Z.eqb x 0); [discriminate|].
  destruct (float_quotient _ _); [discriminate|].
  intros H; inversion H; auto.
Qed.

Lemma int_truediv_divisor x y num :
  int_truediv (VInt x) (VInt y) = Ok num -> y <> 0.
Proof.
  unfold int_truediv. destruct (Z.eqb_spec y 0); [discriminate | auto].
Qed.

(** The answer of [decode], read off the dictionary. *)
Lemma decode_answer fs cfg st :
  fst (decode fs cfg st) =
  match cfg !! "Data offset" with
  | None => Raise (KeyError "Data offset")
  | Some (VStr _) => Raise TypeError
  | Some (VInt o) =>
      if negb (fits_int64 o) then
        Raise (ValueError "cannot fit 'int' into an offset-sized integer")
      else if (o <? 0) || (max_offset fs <? o) then Raise OSError
      else
        match cfg !! "Data length", cfg !! "Bytes/pixel" with
        | None, _ => Raise (KeyError "Data length")
        | Some _, None => Raise (KeyError "Bytes/pixel")
        | Some (VInt n), Some (VInt b) =>
            match int_truediv (VInt n) (VInt b) with
            | Raise e => Raise e
            | Ok num =>
                if negb (fits_int64 n) then Raise OverflowError
                else if n <? -1 then
                  Raise (ValueError "read length must be non-negative or -1")
                else if 2 ^ 63 - 1 - bytes_header <? n then
                  Raise OverflowError
                else if max_read fs <? n then Raise MemoryError
                else
                  match unpack_from num (bytes_read (raw fs) o n) with
                  | Raise e => Raise e
                  | Ok xs =>
                      match cfg !! "Number of lines", cfg !! "Samps/line" with
                      | None, _ => Raise (KeyError "Number of lines")
                      | Some _, None => Raise (KeyError "Samps/line")
                      | Some vl, Some vs => reshape xs vl vs
                      end
                  end
            end
        | Some _, Some _ => Raise TypeError
        end
  end.
Proof.
  unfold decode, mbind, M_bind, bind, lift, getitem.
  destruct (cfg !! "Data offset") as [[o|?]|]; [|reflexivity|reflexivity].
  unfold file_seek, mbind, M_bind, bind, emit, throw, ret.
  destruct (negb (fits_int64 o)); [reflexivity|].
  destruct ((o <? 0) || (max_offset fs <? o)); [reflexivity|].
  destruct (cfg !! "Data length") as [[n|?]|]; [| |reflexivity];
    (destruct (cfg !! "Bytes/pixel") as [[b|?]|];
     [|try reflexivity|try reflexivity]); try reflexivity.
  destruct (int_truediv (VInt n) (VInt b)) as [num|e]; [|reflexivity].
  unfold file_read, mbind, M_bind, bind, emit, throw, ret.
  destruct (negb (fits_int64 n)); [reflexivity|].
  destruct (n <? -1); [reflexivity|].
  destruct (_ <? n); [reflexivity|].
  destruct (max_read fs <? n); [reflexivity|].
  cbv beta iota.
  destruct (unpack_from num (bytes_read (raw fs) o n)); [|reflexivity].
  destruct (cfg !! "Number of lines"); [|reflexivity].
  destruct (cfg !! "Samps/line"); reflexivity.
Qed.

(** The decode of a dictionary whose required fields are all numeric. *)
Lemma decode_numeric fs cfg O D B L S st :
  cfg !! "Data offset" = Some (VInt O) ->
  cfg !! "Data length" = Some (VInt D) ->
  cfg !! "Bytes/pixel" = Some (VInt B) ->
  cfg !! "Number of lines" = Some (VInt L) ->
  cfg !! "Samps/line" = Some (VInt S) ->
  seek_succeeds fs cfg = true ->
  read_accepts fs D = true ->
  fst (decode fs cfg st) =
  match int_truediv (VInt D) (VInt B) with
  | Raise e => Raise e
  | Ok num =>
      match unpack_from num (bytes_read (raw fs) O D) with
      | Ok xs => reshape xs (VInt L) (VInt S)
      | Raise e => Raise e
      end
  end.
Proof.
  intros HO HD HB HL HS Hseek Hread.
  rewrite decode_answer. unfold seek_succeeds in Hseek.
  rewrite HO in Hseek |- *. rewrite HD, HB, HL, HS.
  apply andb_prop in Hseek. destruct Hseek as [Hs1 Hs2].
  apply negb_true_iff in Hs2. rewrite Hs1, Hs2. cbn [negb].
  unfold read_accepts in Hread.
  do 3 (apply andb_prop in Hread; destruct Hread as [Hread ?]).
  repeat match goal with
         | H : negb _ = true |- _ => apply negb_true_iff in H; rewrite H
         end.
  rewrite Hread. cbn [negb]. reflexivity.
Qed.

Lemma fits_int64_range n : - 2 ^ 63 <= n < 2 ^ 63 -> fits_int64 n = true.
Proof.
  intros H. unfold fits_int64.
  apply andb_true_intro. split; [apply Z.leb_le | apply Z.ltb_lt]; lia.
Qed.

(** [reshape] to dimensions that are not negative. *)
Lemma reshape_plain xs L S :
  0 <= L < 2 ^ 60 -> 0 <= S < 2 ^ 60 -> Z.of_nat (length xs) < 2 ^ 60 ->
  reshape xs (VInt L) (VInt S) =
  if Z.eqb (L * S) (Z.of_nat (length xs))
  then Ok {| shape := (L, S); data := xs |}
  else Raise (reshape_mismatch (Z.of_nat (length xs)) L S).
Proof.
  intros HL HS Hn. unfold reshape.
  rewrite (fits_int64_range L), (fits_int64_range S) by lia. cbn [negb].
  destruct (Z.ltb_spec L 0); [lia|]. cbn [andb].
  unfold settle_shape.
  destruct (Z.ltb_spec L 0); [lia|]. destruct (Z.ltb_spec S 0); [lia|].
  destruct (Z.eqb_spec (L * S) (Z.of_nat (length xs))) as [He|Hne].
  - destruct (Z.ltb_spec (L * S) (2 ^ 63)); [|lia]. cbn [andb].
    destruct (Z.leb_spec (2 ^ 63) (measured_bytes L S)) as [Hbig|];
      [|reflexivity].
    exfalso. unfold measured_bytes in Hbig.
    destruct (Z.eqb_spec L 0), (Z.eqb_spec S 0); nia.
  - rewrite andb_false_r. reflexivity.
Qed.

Lemma unpack_h_length n : forall buf,
  (2 * n <= length buf)%nat -> length (unpack_h n buf) = n.
Proof.
  induction n as [|n IH]; intros buf H; [reflexivity|].
  destruct buf as [|b0 [|b1 buf]]; simpl in H; try lia.
  simpl. rewrite IH; [reflexivity | lia].
Qed.

Lemma bytes_read_length content O D :
  0 <= O -> 0 <= D -> O + D <= Z.of_nat (length content) ->
  Z.of_nat (length (bytes_read content O D)) = D.
Proof.
  intros HO HD Hlen. unfold bytes_read.
  destruct (Z.eqb_spec D (-1)); [lia|].
  rewrite length_take, length_drop. lia.
Qed.

Lemma read_image_data_registered fs image_type st l cfg :
  In image_type supported_image_types ->
  images st !! image_type = Some l ->
  heap st !! l = Some cfg ->
  fst (read_image_data fs image_type st)
  = fst (decode fs cfg (log_io IoOpenBinary st)).
Proof.
  intros Hin Hl Hc. unfold read_image_data.
  assert (He : existsb (String.eqb image_type) supported_image_types = true).
  { apply existsb_exists. exists image_type. split; [exact Hin|].
    apply String.eqb_refl. }
  rewrite He, Hl, Hc. reflexivity.
Qed.

(** C2, as the code has it. For a registered channel whose dictionary
    holds non-negative integers under the five fields, with
    [Bytes/pixel >= 1], on a file that holds the [O + D] bytes declared,
    and within the limits of the platform and of the libraries (the seek
    to [O] and the read of [D] bytes are accepted; [D] and [B] are below
    [2 ^ 53], where the float quotient truncates to the integer one; [L]
    and [S] are below [2 ^ 60], where numpy can measure the array): the
    count of samples is the truncated quotient [D ÷ B];
    [read_image_data] succeeds exactly when [2 * (D ÷ B) <= D] (the bytes
    read hold that many 16-bit samples) and [D ÷ B = L * S]. When
    [B >= 2] the first condition always holds, and success is equivalent
    to [D ÷ B = L * S]. A count that the bytes read cannot hold raises
    [struct.error]; otherwise a count different from [L * S] raises the
    [ValueError] of [reshape]. *)
Theorem read_image_data_shape fs image_type st l cfg O D B L S :
  In image_type supported_image_types ->
  images st !! image_type = Some l ->
  heap st !! l = Some cfg ->
  cfg !! "Data offset" = Some (VInt O) ->
  cfg !! "Data length" = Some (VInt D) ->
  cfg !! "Bytes/pixel" = Some (VInt B) ->
  cfg !! "Number of lines" = Some (VInt L) ->
  cfg !! "Samps/line" = Some (VInt S) ->
  0 <= O -> 0 <= D -> 1 <= B -> 0 <= L -> 0 <= S ->
  O + D <= Z.of_nat (length (raw fs)) ->
  O <= max_offset fs -> O < 2 ^ 63 -> D <= max_read fs ->
  D < 2 ^ 53 -> B < 2 ^ 53 -> L < 2 ^ 60 -> S < 2 ^ 60 ->
  let r := fst (read_image_data fs image_type st) in
  (is_ok r = true <-> 2 * (D ÷ B) <= D /\ D ÷ B = L * S) /\
  (2 <= B -> (is_ok r = true <-> D ÷ B = L * S)) /\
  (2 * (D ÷ B) <= D -> D ÷ B = L * S ->
   r = Ok {| shape := (L, S);
             data := unpack_h (Z.to_nat (D ÷ B))
                              (bytes_read (raw fs) O D) |}) /\
  (2 * (D ÷ B) <= D -> D ÷ B <> L * S ->
   r = Raise (reshape_mismatch (D ÷ B) L S)) /\
  (D < 2 * (D ÷ B) -> r = Raise StructError).
Proof.
  intros Hin Hl Hc HO HD HB HL HS HO0 HD0 HB1 HL0 HS0 Hlen
         HOmax HO63 HDmax HD53 HB53 HL60 HS60 r.
  assert (Hq0 : 0 <= D ÷ B) by (apply Z.quot_pos; lia).
  assert (Hqle : D ÷ B <= D).
  { assert (B * (D ÷ B) <= D) by (apply Z.mul_quot_le; lia). nia. }
  assert (Hr : r =
    if Z.of_nat (length (bytes_read (raw fs) O D)) <? 2 * (D ÷ B)
    then Raise StructError
    else reshape (unpack_h (Z.to_nat (D ÷ B)) (bytes_read (raw fs) O D))
                 (VInt L) (VInt S)).
  { unfold r.
    rewrite (read_image_data_registered _ _ _ _ _ Hin Hl Hc).
    rewrite (decode_numeric _ _ _ _ _ _ _ _ HO HD HB HL HS).
    - rewrite int_truediv_small by lia.
      unfold unpack_from.
      destruct (Z.ltb_spec (D ÷ B) 0); [lia|].
      destruct (_ <? _); reflexivity.
    - unfold seek_succeeds. rewrite HO.
      rewrite fits_int64_range by lia.
      destruct (Z.ltb_spec O 0); [lia|].
      destruct (Z.ltb_spec (max_offset fs) O); [lia|]. reflexivity.
    - unfold read_accepts, bytes_header.
      rewrite fits_int64_range by lia.
      destruct (Z.ltb_spec D (-1)); [lia|].
      destruct (Z.ltb_spec (2 ^ 63 - 1 - 33) D); [lia|].
      destruct (Z.ltb_spec (max_read fs) D); [lia|]. reflexivity. }
  rewrite (bytes_read_length _ _ _ HO0 HD0 Hlen) in Hr.
  assert (Hshape : 2 * (D ÷ B) <= D ->
    r = if Z.eqb (L * S) (D ÷ B)
        then Ok {| shape := (L, S);
                   data := unpack_h (Z.to_nat (D ÷ B))
                                    (bytes_read (raw fs) O D) |}
        else Raise (reshape_mismatch (D ÷ B) L S)).
  { intros Hfit. rewrite Hr.
    destruct (Z.ltb_spec D (2 * (D ÷ B))); [lia|].
    assert (Hlenx :
      Z.of_nat (length (unpack_h (Z.to_nat (D ÷ B))
                                 (bytes_read (raw fs) O D))) = D ÷ B).
    { rewrite unpack_h_length.
      - apply Z2Nat.id. exact Hq0.
      - pose proof (bytes_read_length _ _ _ HO0 HD0 Hlen). lia. }
    rewrite reshape_plain by (rewrite ?Hlenx; lia).
    rewrite Hlenx. reflexivity. }
  assert (Hshort : D < 2 * (D ÷ B) -> r = Raise StructError).
  { intros Hs. rewrite Hr. destruct (Z.ltb_spec D (2 * (D ÷ B))); [reflexivity|lia]. }
  assert (Hiff : is_ok r = true <-> 2 * (D ÷ B) <= D /\ D ÷ B = L * S).
  { destruct (Z_lt_le_dec D (2 * (D ÷ B))) as [Hs|Hfit].
    - rewrite (Hshort Hs). simpl. split; [discriminate | lia].
    - rewrite (Hshape Hfit).
      destruct (Z.eqb_spec (L * S) (D ÷ B)); simpl; split;
        try discriminate; try lia; auto. }
  split; [exact Hiff|]. split; [|split; [|split]].
  - intros HB2. rewrite Hiff.
    assert (2 * (D ÷ B) <= D).
    { assert (B * (D ÷ B) <= D) by (apply Z.mul_quot_le; lia). nia. }
    tauto.
  - intros Hfit He. rewrite (Hshape Hfit).
    destruct (Z.eqb_spec (L * S) (D ÷ B)); [reflexivity | lia].
  - intros Hfit He. rewrite (Hshape Hfit).
    destruct (Z.eqb_spec (L * S) (D ÷ B)); [lia | reflexivity].
  - exact Hshort.
Qed.

Lemma unpack_from_error num buf e :
  unpack_from num buf = Raise e -> e = StructError.
Proof.
  unfold unpack_from.
  destruct (_ <? _); [congruence|]. destruct (_ <? _); congruence.
Qed.

Ltac malformed_field :=
  match goal with
  | |- malformed_configuration_error _ (KeyError _) =>
      split; [unfold required_fields; cbn [In]; tauto | assumption]
  | |- malformed_configuration_error _ TypeError =>
      first
        [ exists "Data offset"; eexists;
          split; [unfold required_fields; cbn [In]; tauto | eassumption]
        | exists "Data length"; eexists;
          split; [unfold required_fields; cbn [In]; tauto | eassumption]
        | exists "Bytes/pixel"; eexists;
          split; [unfold required_fields; cbn [In]; tauto | eassumption]
        | exists "Number of lines"; eexists;
          split; [unfold required_fields; cbn [In]; tauto | eassumption]
        | exists "Samps/line"; eexists;
          split; [unfold required_fields; cbn [In]; tauto | eassumption] ]
  end.

Ltac decode_branch :=
  repeat
    (match goal with
     | |- context [fits_int64 ?x] => destruct (fits_int64 x)
     | |- context [(?o <? 0) || ?y] => destruct ((o <? 0) || y)
     | |- context [int_truediv ?a ?b] =>
         let H := fresh "Hdiv" in
         destruct (int_truediv a b) as [?|?] eqn:H;
         [|apply int_truediv_error in H; destruct H; subst]
     | |- context [unpack_from ?a ?b] =>
         let H := fresh "Hun" in
         destruct (unpack_from a b) as [?|?] eqn:H;
         [|apply unpack_from_error in H; subst]
     | |- context [?n <? ?m] => destruct (n <? m)
     end;
     cbn [negb andb orb is_ok]).

Ltac decode_outcome :=
  split;
  [ intros Hreach; first [reflexivity | discriminate Hreach]
  | intros Hreach;
    first [ discriminate Hreach
          | eexists; split;
            [reflexivity | unfold decode_step_error; cbn [In]; tauto] ] ].

(** C5, as the code has it. For a registered channel whose dictionary
    lacks one of the five required fields or holds a text under one of
    them, [read_image_data] raises; it never answers an array. Take the
    first such field in the order of use (the offset; the length and the
    bytes per pixel; the number of lines and the samples per line). When
    the steps of the decode before its use succeed, the exception is the
    [KeyError] of that field if it is missing (of the first of the two
    fields of a step that is missing), and the [TypeError] of the step
    if it holds a text. When one of those steps fails, the exception is
    the one of that step: that of a seek that is refused, of a division
    by zero or beyond the floats, of a read size that is refused, of a
    count the bytes read cannot hold, of a number of lines beyond the
    machine word. *)
Theorem read_image_data_malformed fs image_type st l cfg :
  In image_type supported_image_types ->
  images st !! image_type = Some l ->
  heap st !! l = Some cfg ->
  well_configured cfg = false ->
  exists s e,
    first_fault cfg = Some (s, e) /\
    malformed_configuration_error cfg e /\
    (reaches fs cfg s = true ->
     fst (read_image_data fs image_type st) = Raise e) /\
    (reaches fs cfg s = false ->
     exists e',
       fst (read_image_data fs image_type st) = Raise e' /\
       decode_step_error e').
Proof.
  intros Hin Hl Hc Hw.
  rewrite (read_image_data_registered _ _ _ _ _ Hin Hl Hc), decode_answer.
  unfold well_configured, required_fields, numeric_field in Hw.
  cbn [forallb] in Hw.
  unfold first_fault, reaches, seek_succeeds, unpack_succeeds, shape_reached,
    read_accepts, reshape.
  destruct (cfg !! "Data offset") as [[o|so]|] eqn:HO;
    destruct (cfg !! "Data length") as [[n|sn]|] eqn:HD;
    destruct (cfg !! "Bytes/pixel") as [[b|sb]|] eqn:HB;
    destruct (cfg !! "Number of lines") as [[vl|sl]|] eqn:HL;
    destruct (cfg !! "Samps/line") as [[vs|ss]|] eqn:HS;
    try discriminate Hw; clear Hw;
    eexists _, _; (split; [reflexivity|]); (split; [malformed_field|]);
    cbv beta iota; decode_branch; decode_outcome.
Qed.

(** ** The theorems on the sample files *)

Lemma wf_state_init : wf_state init.
Proof. intros name l H. simpl in H. rewrite lookup_empty in H. discriminate. Qed.

(** C1 as stated fails: the header below stops after its ['Version'] line,
    at top level and without a ['File list end']; [read_header] returns
    normally and the parser keeps what was read so far. *)
Lemma read_header_returns_on_unterminated_stream :
  text_lines unterminated_file
    = [nl "\*File list"; nl "\Version: 0x05120130"] /\
  classify false [header_record "File list";
                  scalar_record "Version" (VStr "0x05120130")]
    = RunsOutAtTop /\
  fst (read_header sample_parse unterminated_file init) = Ok tt /\
  config (parsed unterminated_file) !! "Version" = Some (VStr "0x05120130").
Proof. repeat split; vm_compute; reflexivity. Qed.

Lemma version_guard_stops_at_once_witness :
  read_header sample_parse old_version_file init
  = (Raise (ValueError "Unsupported file version 0x04300000"),
     log_io IoOpenText init).
Proof.
  apply (proj2 (version_guard_stops_at_once sample_parse old_version_file
           [nl "\*File list"] (nl "\Version: 0x04300000")
           (map nl ["\*Ciao image list"; "\Data offset: 4"; "\*File list end"])
           (scalar_record "Version" (VStr "0x04300000"))
           init (log_io IoOpenText init)
           eq_refl
           ltac:(vm_compute; reflexivity)
           ltac:(vm_compute; reflexivity)
           ltac:(simpl; discriminate)
           eq_refl
           ltac:(simpl; discriminate))).
Defined.

Lemma read_header_channel_map_witness :
  exists st',
    read_header sample_parse sample_file init = (Ok tt, st') /\
    dom (images st') = observed_designations false sample_records.
Proof.
  apply (read_header_channel_map sample_parse sample_file
           sample_header [payload_line] sample_records).
  - reflexivity.
  - repeat constructor.
  - reflexivity.
Defined.

Lemma image_data_registers_at_once_witness :
  exists st1 st2 cfg,
    (forall rest,
       _read_image_header sample_parse
         ([nl "\Data offset: 4"] ++ nl "\@2:Image Data: S [Height]" :: rest)%list
         init
       = _read_image_header_loop sample_parse 0%nat rest st1) /\
    images st1 !! "Height" = Some 0%nat /\
    is_Some (heap st1 !! 0%nat) /\
    (forall rest,
       _read_image_header_loop sample_parse 0%nat
         ([nl "\Number of lines: 2"] ++ nl "\Samps/line: 2" :: rest)%list st1
       = _read_image_header_loop sample_parse 0%nat rest st2) /\
    images st2 !! "Height" = Some 0%nat /\
    heap st2 !! 0%nat = Some cfg /\
    image_dict st2 "Height" = Some cfg /\
    cfg !! "Samps/line" = Some (VInt 2).
Proof.
  apply (image_data_registers_at_once sample_parse
           [nl "\Data offset: 4"] [scalar_record "Data offset" (VInt 4)]
           (nl "\@2:Image Data: S [Height]") (select_record "Image Data" "Height")
           [nl "\Number of lines: 2"] [scalar_record "Number of lines" (VInt 2)]
           (nl "\Samps/line: 2") (scalar_record "Samps/line" (VInt 2))
           init).
  - repeat constructor.
  - repeat constructor. simpl. discriminate.
  - reflexivity.
  - reflexivity.
  - reflexivity.
  - repeat constructor.
  - repeat constructor. simpl. discriminate.
  - reflexivity.
  - simpl. discriminate.
  - simpl. discriminate.
Defined.

Lemma section_designations_share_one_dict_witness :
  let rs := [ select_record "Image Data" "Height";
              scalar_record "Data offset" (VInt 4);
              select_record "Image Data" "Phase";
              scalar_record "Samps/line" (VInt 2) ] in
  let st := parsed sample_file in
  exists st',
    (forall rest,
       _read_image_header sample_parse
         (map nl [ "\@2:Image Data: S [Height]"; "\Data offset: 4";
                   "\@2:Image Data: S [Phase]"; "\Samps/line: 2" ] ++ rest)%list
         st
       = _read_image_header_loop sample_parse (length (heap st)) rest st') /\
    forall p, p ∈ rs -> type p = "S" -> parameter p = "Image Data" ->
      images st' !! internal_designation p = Some (length (heap st)) /\
      image_dict st' (internal_designation p) = Some (section_dict rs ∅) /\
      (forall q, q ∈ rs -> type q <> "H" -> type q <> "S" ->
         is_Some (section_dict rs ∅ !! parameter q)) /\
      (forall l_old, images st !! internal_designation p = Some l_old ->
         l_old <> length (heap st) /\ heap st' !! l_old = heap st !! l_old).
Proof.
  intros rs st.
  apply (section_designations_share_one_dict sample_parse
           (map nl [ "\@2:Image Data: S [Height]"; "\Data offset: 4";
                     "\@2:Image Data: S [Phase]"; "\Samps/line: 2" ])
           rs st).
  - repeat constructor.
  - repeat constructor; simpl; discriminate.
  - apply (read_header_wf sample_parse sample_file init
             (fst (read_header sample_parse sample_file init)) st
             wf_state_init).
    unfold st, parsed. apply surjective_pairing.
Defined.

Lemma read_image_data_refuses_witness :
  read_image_data sample_file "Deflection" (parsed sample_file)
  = (Raise (ValueError "Unsupported image type Deflection"),
     parsed sample_file) /\
  read_image_data sample_file "Phase" (parsed sample_file)
  = (Raise (ValueError "Image type Phase not in file."), parsed sample_file).
Proof.
  split.
  - apply (proj1 (read_image_data_refuses sample_file "Deflection"
                    (parsed sample_file))).
    simpl. intros [H|[H|[H|[]]]]; discriminate.
  - apply (proj2 (read_image_data_refuses sample_file "Phase"
                    (parsed sample_file))).
    + simpl. tauto.
    + vm_compute. reflexivity.
Defined.

(** C2 as stated fails: the header declares [Data length = 2],
    [Bytes/pixel = 1], [Number of lines = 1], [Samps/line = 2], so that
    [2 / 1 = 1 * 2], and the file holds the two bytes declared; the decode
    asks [struct] for two 16-bit samples out of two bytes and raises
    [struct.error]. *)
Lemma read_image_data_one_byte_pixels :
  image_dict (parsed one_byte_file) "Height" = Some one_byte_config /\
  one_byte_config !! "Data length" = Some (VInt 2) /\
  one_byte_config !! "Bytes/pixel" = Some (VInt 1) /\
  one_byte_config !! "Number of lines" = Some (VInt 1) /\
  one_byte_config !! "Samps/line" = Some (VInt 2) /\
  2 / 1 = 1 * 2 /\
  fst (read_image_data one_byte_file "Height" (parsed one_byte_file))
  = Raise StructError.
Proof. repeat split; vm_compute; reflexivity. Qed.

Lemma read_image_data_shape_witness :
  fst (read_image_data sample_file "Height" (parsed sample_file))
  = Ok {| shape := (2, 2);
          data := unpack_h (Z.to_nat (8 ÷ 2)) (bytes_read (raw sample_file) 4 8) |}.
Proof.
  apply (read_image_data_shape sample_file "Height" (parsed sample_file)
           0%nat sample_config 4 8 2 2 2);
    try (vm_compute; reflexivity); try lia;
    try (vm_compute; discriminate).
  simpl. tauto.
Defined.

(** C5 as stated fails: the dictionary lacks ['Samps/line'] and the file
    is cut short; the decode raises [struct.error] on the short buffer
    before ['Samps/line'] is looked up. *)
Lemma read_image_data_truncated_file :
  image_dict (parsed truncated_file) "Height" = Some no_samps_config /\
  no_samps_config !! "Samps/line" = None /\
  well_configured no_samps_config = false /\
  fst (read_image_data truncated_file "Height" (parsed truncated_file))
  = Raise StructError /\
  ~ malformed_configuration_error no_samps_config StructError.
Proof.
  repeat split; try (vm_compute; reflexivity).
  intros H. exact H.
Qed.

Lemma read_image_data_malformed_witness :
  exists s e,
    first_fault no_samps_config = Some (s, e) /\
    malformed_configuration_error no_samps_config e /\
    (reaches no_samps_file no_samps_config s = true ->
     fst (read_image_data no_samps_file "Height" (parsed no_samps_file))
     = Raise e) /\
    (reaches no_samps_file no_samps_config s = false ->
     exists e',
       fst (read_image_data no_samps_file "Height" (parsed no_samps_file))
       = Raise e' /\
       decode_step_error e').
Proof.
  apply (read_image_data_malformed no_samps_file "Height"
           (parsed no_samps_file) 0%nat no_samps_config).
  - simpl. tauto.
  - vm_compute. reflexivity.
  - vm_compute. reflexivity.
  - vm_compute. reflexivity.
Defined.

(** The decoded samples of the sample file, and its channel map. *)
Example sample_height_grid :
  fst (read_image_data sample_file "Height" (parsed sample_file))
  = Ok {| shape := (2, 2); data := [1; -1; -32768; 32767] |}.
Proof. vm_compute. reflexivity. Qed.

Example sample_channel_map :
  sample_parse (rstrip payload_line) = Raise (ValueError "not a parameter line")
  /\ dom (images (parsed sample_file)) = {[ "Height" ]}
  /\ image_dict (parsed sample_file) "Height" = Some sample_config.
Proof. repeat split; vm_compute; reflexivity. Qed.

(** The count of samples is a truncated quotient: five bytes of two-byte
    pixels decode as two samples. *)
Example odd_length_decodes :
  fst (read_image_data odd_length_file "Height" (parsed odd_length_file))
  = Ok {| shape := (1, 2); data := [1; -2] |}.
Proof. vm_compute. reflexivity. Qed.

(** The limits of the libraries on a few inputs: true division rounds
    to a float, overflows beyond the floats and truncates toward zero;
    [reshape] refuses what it cannot measure and names in its message
    the shape without the dimension to infer; a seek and a read refuse
    what does not fit the machine word before the file is touched. *)
Example int_truediv_rounds :
  int_truediv (VInt (2 ^ 53 + 1)) (VInt 1) = Ok (2 ^ 53) /\
  int_truediv (VInt (10 ^ 30)) (VInt (10 ^ 7)) = Ok 99999999999999991611392 /\
  int_truediv (VInt (2 ^ 1024)) (VInt 1) = Raise OverflowError /\
  int_truediv (VInt (-7)) (VInt 2) = Ok (-3).
Proof. repeat split; vm_compute; reflexivity. Qed.

Example reshape_limits :
  reshape [] (VInt (2 ^ 60)) (VInt 0) = Raise array_too_big /\
  reshape [] (VInt (2 ^ 63)) (VStr "x")
  = Raise (ValueError "Maximum allowed dimension exceeded") /\
  reshape [1; 2; 3] (VInt (-1)) (VInt 2)
  = Raise (ValueError "cannot reshape array of size 3 into shape (2)") /\
  reshape [1; 2; 3; 4] (VInt (-1)) (VInt 2)
  = Ok {| shape := (2, 2); data := [1; 2; 3; 4] |}.
Proof. repeat split; vm_compute; reflexivity. Qed.

Example seek_and_read_limits :
  file_seek sample_max_offset (VInt (2 ^ 63)) init
  = (Raise (ValueError "cannot fit 'int' into an offset-sized integer"),
     init) /\
  file_seek sample_max_offset (VInt (2 ^ 63 - 1)) init
  = (Raise OSError, log_io (IoSeek (2 ^ 63 - 1)) init) /\
  file_read sample_max_read [] 0 (VInt (2 ^ 63)) init
  = (Raise OverflowError, init) /\
  file_read sample_max_read [] 0 (VInt (2 ^ 62)) init
  = (Raise MemoryError, init).
Proof. repeat split; vm_compute; reflexivity. Qed.

(** * Further properties of the header parser *)

Section HeaderExtras.

Variable parse_parameter : string -> outcome ParameterRecord.

(** Which way the walk goes, and the lines it leaves, do not depend on
    what has been accumulated. *)
Lemma walk_outcome_state_free f : forall m1 m2 st1 st2,
  in_section m1 = in_section m2 ->
  fst (walk parse_parameter m1 f st1) = fst (walk parse_parameter m2 f st2).
Proof.
  induction f as [|line f IH]; intros m1 m2 st1 st2 Hm.
  - destruct m1, m2; simpl in *; try discriminate; reflexivity.
  - simpl. destruct (parse_parameter (rstrip line)) as [p|e]; [|reflexivity].
    destruct (String.eqb (type p) "H").
    + destruct (String.eqb (header p) "File list end"); [reflexivity|].
      destruct (String.eqb (header p) "Ciao image list");
        simpl; apply IH; reflexivity.
    + destruct m1 as [|l1], m2 as [|l2]; simpl in Hm; try discriminate.
      * destruct (version_rejected p); [reflexivity|].
        destruct (String.eqb (type p) "S"); apply IH; reflexivity.
      * destruct (String.eqb (type p) "S");
          [destruct (String.eqb (parameter p) "Image Data")|];
          apply IH; reflexivity.
Qed.

Lemma walk_terminated_app f : forall m st f' st' rest,
  walk parse_parameter m f st = (Ok true, f', st') ->
  walk parse_parameter m (f ++ rest) st = (Ok true, (f' ++ rest)%list, st').
Proof.
  induction f as [|line f IH]; intros m st f' st' rest H.
  - destruct m; simpl in H; discriminate.
  - simpl in H |- *.
    destruct (parse_parameter (rstrip line)) as [p|e]; [|discriminate].
    destruct (String.eqb (type p) "H").
    + destruct (String.eqb (header p) "File list end").
      { inversion H; subst. reflexivity. }
      destruct (String.eqb (header p) "Ciao image list");
        simpl in *; apply IH; exact H.
    + destruct m as [|l].
      * destruct (version_rejected p); [discriminate|].
        destruct (String.eqb (type p) "S"); apply IH; exact H.
      * destruct (String.eqb (type p) "S");
          [destruct (String.eqb (parameter p) "Image Data")|];
          apply IH; exact H.
Qed.

(** X5. Once the loop of [read_header] has returned at a
    top-level ['File list end'], whatever lines the iteration over the
    file would yield after it stay unread and change neither the answer
    nor the state. *)
Theorem read_header_ignores_lines_after_end hdr rest st f' st' :
  read_header_loop parse_parameter hdr st = (Ok true, f', st') ->
  read_header_loop parse_parameter (hdr ++ rest) st
  = (Ok true, (f' ++ rest)%list, st').
Proof.
  rewrite !read_header_loop_walk. apply walk_terminated_app.
Qed.

(** X6. When the lines before a line that the tokenizer refuses
    tokenize into records that neither end the header nor are refused by
    the version guard, [read_header] raises the exception of the
    tokenizer, with the lines after the offending one unread. *)
Theorem read_header_propagates_tokenizer_error fs pre ps line rest e st :
  text_lines fs = (pre ++ line :: rest)%list ->
  tokenized parse_parameter pre ps ->
  classify false ps = RunsOutAtTop \/ classify false ps = RunsOutInSection ->
  parse_parameter (rstrip line) = Raise e ->
  fst (read_header parse_parameter fs st) = Raise e /\
  exists st',
    read_header_loop parse_parameter (text_lines fs) (log_io IoOpenText st)
    = (Raise e, rest, st').
Proof.
  intros Hf Htok Hc He.
  pose proof (walk_classify parse_parameter _ _ Htok Top
                (log_io IoOpenText st) (line :: rest)) as Hw.
  simpl in Hw.
  assert (Hloop : exists st',
    walk parse_parameter Top (text_lines fs) (log_io IoOpenText st)
    = (Raise e, rest, st')).
  { rewrite Hf.
    destruct Hc as [Hc|Hc]; rewrite Hc in Hw.
    - destruct Hw as (st' & Hw). exists st'. rewrite Hw. simpl.
      rewrite He. reflexivity.
    - destruct Hw as (l & st' & Hw). exists st'. rewrite Hw. simpl.
      rewrite He. reflexivity. }
  destruct Hloop as (st' & Hloop). split.
  - rewrite read_header_walk, Hloop. reflexivity.
  - exists st'. rewrite read_header_loop_walk. exact Hloop.
Qed.

(** X7. Inside a section no record other than a header
    changes the outcome of [read_header]: with or without the record the
    method returns, or raises the same exception. In particular a
    ['Version'] record is not checked there. *)
Theorem read_header_outcome_ignores_section_record
    fs1 fs2 pre ps line p post st :
  text_lines fs1 = (pre ++ line :: post)%list ->
  text_lines fs2 = (pre ++ post)%list ->
  tokenized parse_parameter pre ps ->
  classify false ps = RunsOutInSection ->
  parse_parameter (rstrip line) = Ok p ->
  type p <> "H" ->
  fst (read_header parse_parameter fs1 st)
  = fst (read_header parse_parameter fs2 st).
Proof.
  intros Hf1 Hf2 Htok Hc Hp Ht.
  pose proof (walk_classify parse_parameter _ _ Htok Top
                (log_io IoOpenText st) (line :: post)) as Hw1.
  pose proof (walk_classify parse_parameter _ _ Htok Top
                (log_io IoOpenText st) post) as Hw2.
  change (in_section Top) with false in Hw1, Hw2. rewrite Hc in Hw1, Hw2.
  destruct Hw1 as (l1 & st1 & Hw1). destruct Hw2 as (l2 & st2 & Hw2).
  rewrite !read_header_walk, Hf1, Hf2, Hw1, Hw2.
  assert (Hstep : exists st1',
    walk parse_parameter (InSection l1) (line :: post) st1
    = walk parse_parameter (InSection l1) post st1').
  { simpl. rewrite Hp. apply String.eqb_neq in Ht. rewrite Ht.
    destruct (String.eqb (type p) "S");
      [destruct (String.eqb (parameter p) "Image Data")|]; eauto. }
  destruct Hstep as (st1' & Hstep). rewrite Hstep.
  pose proof (walk_outcome_state_free post (InSection l1) (InSection l2)
                st1' st2 eq_refl) as Hout.
  destruct (walk parse_parameter (InSection l1) post st1') as [[r1 g1] s1].
  destruct (walk parse_parameter (InSection l2) post st2) as [[r2 g2] s2].
  simpl in Hout. inversion Hout; subst. reflexivity.
Qed.

End HeaderExtras.

(** ** The Document that [read_header] builds, as values *)

Lemma lookup_publish names d (channels : gmap string dict) n :
  publish names d channels !! n
  = if decide (n ∈ names) then Some d else channels !! n.
Proof.
  induction names as [|a names IH]; simpl.
  - destruct (decide (n ∈ [])) as [H|_]; [inversion H | reflexivity].
  - destruct (decide (a = n)) as [->|Hne].
    + rewrite lookup_insert_eq.
      destruct (decide (n ∈ n :: names)) as [_|H]; [reflexivity|].
      exfalso. apply H. left.
    + rewrite lookup_insert_ne by exact Hne. rewrite IH.
      destruct (decide (n ∈ names)) as [Hin|Hin];
        destruct (decide (n ∈ a :: names)) as [Hin'|Hin'];
        try reflexivity.
      * exfalso. apply Hin'. right. exact Hin.
      * exfalso. apply elem_of_cons in Hin'.
        destruct Hin' as [->|Hin']; [apply Hne; reflexivity | exact (Hin Hin')].
Qed.

Lemma section_step_images l st p :
  images (section_step l st p)
  = if String.eqb (type p) "S" && String.eqb (parameter p) "Image Data"
    then <[internal_designation p := l]> (images st)
    else images st.
Proof.
  unfold section_step.
  destruct (String.eqb (type p) "S");
    [destruct (String.eqb (parameter p) "Image Data")|]; reflexivity.
Qed.

Lemma section_step_config l st p :
  config (section_step l st p) = config st.
Proof.
  unfold section_step.
  destruct (String.eqb (type p) "S");
    [destruct (String.eqb (parameter p) "Image Data")|]; reflexivity.
Qed.

Lemma represents_top m cur st channels :
  represents m cur st channels -> represents Top None st channels.
Proof. intros (H1 & H2 & _). repeat split; assumption. Qed.

Lemma represents_alloc m cur st channels :
  represents m cur st channels ->
  represents (InSection (length (heap st))) (Some ([], ∅))
             (snd (alloc_dict st)) channels.
Proof.
  intros (Hview & Hwf & _). split; [|split; [|split]].
  - intros n. rewrite <- Hview. unfold image_dict. simpl.
    destruct (images st !! n) as [l|] eqn:Hl; simpl; [|reflexivity].
    apply lookup_app_l. eapply Hwf, Hl.
  - intros n l Hl. simpl in *. rewrite length_app. simpl.
    apply Hwf in Hl. lia.
  - apply heap_alloc_new.
  - intros n. simpl. split.
    + intros Hl. apply Hwf in Hl. lia.
    + intros Hin. inversion Hin.
Qed.

Lemma represents_set_config m cur st channels k v :
  represents m cur st channels ->
  represents m cur (set_config k v st) channels.
Proof. intros H. exact H. Qed.

Lemma represents_section_step l names d st channels p :
  represents (InSection l) (Some (names, d)) st channels ->
  represents (InSection l)
    (Some (names_step names p, dict_step d p))
    (section_step l st p)
    (publish (names_step names p) (dict_step d p) channels).
Proof.
  intros (Hview & Hwf & Hd & Hnames).
  assert (Hlen : (l < length (heap st))%nat)
    by (apply lookup_lt_is_Some; eauto).
  assert (Hheap : heap (section_step l st p) !! l = Some (dict_step d p)).
  { rewrite section_step_heap, list_lookup_alter_eq, Hd. reflexivity. }
  assert (Hnames' : forall n,
    images (section_step l st p) !! n = Some l <-> n ∈ names_step names p).
  { intros n. rewrite section_step_images. unfold names_step.
    destruct (String.eqb (type p) "S" && String.eqb (parameter p) "Image Data").
    - destruct (decide (internal_designation p = n)) as [->|Hne].
      + rewrite lookup_insert_eq. split; [intros _; left | reflexivity].
      + rewrite lookup_insert_ne by exact Hne. rewrite Hnames.
        split; [intros H; right; exact H|].
        intros H. apply elem_of_cons in H.
        destruct H as [->|H]; [exfalso; apply Hne; reflexivity | exact H].
    - apply Hnames. }
  split; [|split; [|split]].
  - intros n. rewrite lookup_publish.
    destruct (decide (n ∈ names_step names p)) as [Hin|Hin].
    + apply Hnames' in Hin. unfold image_dict. rewrite Hin. exact Hheap.
    + assert (Hsame : images (section_step l st p) !! n = images st !! n).
      { rewrite section_step_images. unfold names_step in Hin.
        destruct (String.eqb (type p) "S"
                  && String.eqb (parameter p) "Image Data"); [|reflexivity].
        apply lookup_insert_ne. intros Heq. apply Hin. rewrite Heq. left. }
      rewrite <- Hview. unfold image_dict. rewrite Hsame.
      destruct (images st !! n) as [l'|] eqn:Hl'; simpl; [|reflexivity].
      rewrite section_step_heap. apply list_lookup_alter_ne.
      intros Heq. subst l'. apply Hin, Hnames'. exact Hsame.
  - intros n l' Hl'. rewrite section_step_heap, length_alter.
    rewrite section_step_images in Hl'.
    destruct (String.eqb (type p) "S" && String.eqb (parameter p) "Image Data");
      [|eapply Hwf, Hl'].
    destruct (decide (internal_designation p = n)) as [<-|Hne].
    + rewrite lookup_insert_eq in Hl'. inversion Hl'; subst. exact Hlen.
    + rewrite lookup_insert_ne in Hl' by exact Hne. eapply Hwf, Hl'.
  - exact Hheap.
  - exact Hnames'.
Qed.

Section DocumentRefinement.

Variable parse_parameter : string -> outcome ParameterRecord.

Lemma walk_section_step l line p f st :
  parse_parameter (rstrip line) = Ok p ->
  String.eqb (type p) "H" = false ->
  walk parse_parameter (InSection l) (line :: f) st
  = walk parse_parameter (InSection l) f (section_step l st p).
Proof.
  intros Hp Ht. simpl. rewrite Hp, Ht. unfold section_step.
  destruct (String.eqb (type p) "S");
    [destruct (String.eqb (parameter p) "Image Data")|]; reflexivity.
Qed.

Lemma walk_document f rs :
  tokenized parse_parameter f rs ->
  forall m cur st channels rest,
    represents m cur st channels ->
    classify (in_section m) rs = Terminated ->
    exists f' st',
      walk parse_parameter m (f ++ rest) st = (Ok true, f', st') /\
      (forall n,
         image_dict st' n
         = fst (document_of cur rs channels (config st)) !! n) /\
      config st' = snd (document_of cur rs channels (config st)).
Proof.
  induction 1 as [|line p f rs Hp Hf IH]; intros m cur st channels rest Hrep Hc.
  - destruct m; simpl in Hc; discriminate.
  - destruct (String.eqb (type p) "H") eqn:Ht.
    + simpl in Hc |- *. rewrite Hp, Ht in *.
      destruct (String.eqb (header p) "File list end").
      { exists (f ++ rest)%list, st. split; [reflexivity|].
        split; [apply Hrep | reflexivity]. }
      destruct (String.eqb (header p) "Ciao image list").
      * exact (IH (InSection (length (heap st))) (Some ([], ∅)) _ channels
                 rest (represents_alloc _ _ _ _ Hrep) Hc).
      * exact (IH Top None st channels rest
                 (represents_top _ _ _ _ Hrep) Hc).
    + destruct m as [|l].
      * destruct cur as [[names d]|]; [destruct Hrep as (_ & _ & []) |].
        simpl in Hc |- *. rewrite Hp, Ht in *. simpl in Hc.
        destruct (version_rejected p); [discriminate|].
        destruct (String.eqb (type p) "S").
        -- exact (IH Top None st channels rest Hrep Hc).
        -- exact (IH Top None _ channels rest
                    (represents_set_config _ _ _ _ _ _ Hrep) Hc).
      * destruct cur as [[names d]|]; [|destruct Hrep as (_ & _ & [])].
        change ((line :: f) ++ rest)%list with (line :: (f ++ rest))%list.
        rewrite (walk_section_step _ _ _ _ _ Hp Ht).
        simpl in Hc. rewrite Ht in Hc. simpl in Hc.
        pose proof (IH (InSection l) _ _ _ rest
                      (represents_section_step _ _ _ _ _ p Hrep) Hc) as Hres.
        rewrite section_step_config in Hres.
        simpl. rewrite Ht. exact Hres.
Qed.

(** X1. On a file whose first lines tokenize into records that reach a
    top-level ['File list end'], [read_header] on a fresh parser builds
    the Document that [document_of] computes on values: every name refers
    to the dictionary of the last section that registered it, with all
    the scalar records of that section, and [self.config] holds the
    scalar records met at top level, the last of a name winning. *)
Theorem read_header_builds_document fs hdr rest rs :
  text_lines fs = (hdr ++ rest)%list ->
  tokenized parse_parameter hdr rs ->
  classify false rs = Terminated ->
  exists st',
    read_header parse_parameter fs init = (Ok tt, st') /\
    (forall n, image_dict st' n = fst (document_of None rs ∅ ∅) !! n) /\
    config st' = snd (document_of None rs ∅ ∅).
Proof.
  intros Hfs Htok Hc.
  assert (Hrep : represents Top None (log_io IoOpenText init) ∅).
  { split; [|split; [|exact I]].
    - intros n. unfold image_dict. simpl. rewrite !lookup_empty. reflexivity.
    - apply wf_state_init. }
  destruct (walk_document hdr rs Htok Top None _ ∅ rest Hrep Hc)
    as (f' & st' & Hw & Hview & Hcfg).
  exists st'. rewrite read_header_walk, Hfs, Hw.
  split; [reflexivity|]. split; [exact Hview | exact Hcfg].
Qed.

End DocumentRefinement.

(** ** Accessors, invariants and frame of [read_header] *)

Section HeaderInvariants.

Variable parse_parameter : string -> outcome ParameterRecord.

(** X4. After [read_header] on a fresh parser and a header that reaches
    its top-level ['File list end'], each of the accessors [height],
    [amplitude] and [phase] answers a dictionary exactly when an
    ['Image Data'] string attribute with that designation was met inside
    a section, and [None] otherwise; the dictionary it answers is in the
    store. *)
Theorem accessors_after_read_header fs hdr rest rs :
  text_lines fs = (hdr ++ rest)%list ->
  tokenized parse_parameter hdr rs ->
  classify false rs = Terminated ->
  let st' := snd (read_header parse_parameter fs init) in
  (is_Some (height st') <-> "Height" ∈ observed_designations false rs) /\
  (is_Some (amplitude st')
   <-> "Amplitude" ∈ observed_designations false rs) /\
  (is_Some (phase st') <-> "Phase" ∈ observed_designations false rs) /\
  (forall name l, images_get st' name = Some l -> is_Some (heap st' !! l)).
Proof.
  intros Hfs Htok Hc st'.
  destruct (read_header_images_dom parse_parameter fs hdr rest rs init
              Hfs Htok Hc) as (st1 & Hr & Hd).
  assert (Hst : st' = st1) by (unfold st'; rewrite Hr; reflexivity).
  rewrite Hst. simpl in Hd. rewrite dom_empty_L, union_empty_l_L in Hd.
  unfold height, amplitude, phase, images_get.
  rewrite <- Hd. repeat split; try (apply elem_of_dom); try (apply elem_of_dom).
  intros name l Hl. apply lookup_lt_is_Some.
  eapply (read_header_wf parse_parameter fs init _ st1 wf_state_init Hr), Hl.
Qed.

Lemma walk_frame f : forall m st r f' st',
  walk parse_parameter m f st = (r, f', st') ->
  (length (heap st) <= length (heap st'))%nat /\
  dom (images st) ⊆ dom (images st') /\
  dom (config st) ⊆ dom (config st') /\
  forall l', (l' < length (heap st))%nat ->
    (forall l, m = InSection l -> l <> l') ->
    heap st' !! l' = heap st !! l'.
Proof.
  induction f as [|line f IH]; intros m st r f' st' H.
  - assert (st' = st) by (destruct m; simpl in H; congruence). subst.
    repeat split; auto.
  - simpl in H.
    destruct (parse_parameter (rstrip line)) as [p|e];
      [|inversion H; subst; repeat split; auto].
    destruct (String.eqb (type p) "H").
    + destruct (String.eqb (header p) "File list end");
        [inversion H; subst; repeat split; auto|].
      destruct (String.eqb (header p) "Ciao image list").
      * simpl in H. apply IH in H. simpl in H.
        rewrite length_app in H. simpl in H.
        destruct H as (H1 & H2 & H3 & H4).
        repeat split; [lia | exact H2 | exact H3 |].
        intros l' Hl' _. rewrite H4; [apply lookup_app_l; exact Hl' | lia |].
        intros l Heq. inversion Heq; subst. lia.
      * apply IH in H. destruct H as (H1 & H2 & H3 & H4).
        repeat split; auto.
    + destruct m as [|l].
      * destruct (version_rejected p);
          [inversion H; subst; repeat split; auto|].
        destruct (String.eqb (type p) "S"); apply IH in H;
          destruct H as (H1 & H2 & H3 & H4); simpl in *.
        -- repeat split; auto.
        -- repeat split; auto.
           etransitivity; [|exact H3]. rewrite dom_insert_L.
           apply union_subseteq_r.
      * assert (Hstep : exists st1,
                  walk parse_parameter (InSection l) f st1 = (r, f', st') /\
                  st1 = section_step l st p).
        { unfold section_step.
          destruct (String.eqb (type p) "S");
            [destruct (String.eqb (parameter p) "Image Data")|]; eauto. }
        destruct Hstep as (st1 & Hw & ->). apply IH in Hw.
        rewrite section_step_heap, length_alter, section_step_config in Hw.
        destruct Hw as (H1 & H2 & H3 & H4).
        repeat split; [exact H1 | | exact H3 |].
        -- etransitivity; [|exact H2]. rewrite section_step_images.
           destruct (_ && _); [|reflexivity].
           rewrite dom_insert_L. apply union_subseteq_r.
        -- intros l' Hl' Hm. rewrite (H4 l' Hl' Hm).
           apply list_lookup_alter_ne. apply Hm. reflexivity.
Qed.

(** X10. [read_header] only adds: the dictionaries that were in the store
    before the call are unchanged after it, and no key of [self.images]
    or of [self.config] is removed. *)
Theorem read_header_only_adds fs st :
  let st' := snd (read_header parse_parameter fs st) in
  dom (images st) ⊆ dom (images st') /\
  dom (config st) ⊆ dom (config st') /\
  forall l, (l < length (heap st))%nat -> heap st' !! l = heap st !! l.
Proof.
  intros st'. unfold st'. rewrite read_header_walk.
  destruct (walk parse_parameter Top (text_lines fs) (log_io IoOpenText st))
    as [[r f'] st1] eqn:Hw.
  apply walk_frame in Hw. simpl in Hw |- *.
  destruct Hw as (_ & H2 & H3 & H4).
  repeat split; [exact H2 | exact H3 |].
  intros l Hl. apply H4; [exact Hl | intros; discriminate].
Qed.

Lemma walk_same_tokens f1 f2 :
  Forall2 (fun a b => rstrip a = rstrip b) f1 f2 ->
  forall m st,
    fst (fst (walk parse_parameter m f1 st))
    = fst (fst (walk parse_parameter m f2 st)) /\
    snd (walk parse_parameter m f1 st) = snd (walk parse_parameter m f2 st).
Proof.
  induction 1 as [|a b f1 f2 Hab Hf IH]; intros m st.
  - split; reflexivity.
  - simpl. rewrite Hab.
    destruct (parse_parameter (rstrip b)) as [p|e]; [|split; reflexivity].
    destruct (String.eqb (type p) "H").
    + destruct (String.eqb (header p) "File list end"); [split; reflexivity|].
      destruct (String.eqb (header p) "Ciao image list"); simpl; apply IH.
    + destruct m as [|l].
      * destruct (version_rejected p); [split; reflexivity|].
        destruct (String.eqb (type p) "S"); apply IH.
      * destruct (String.eqb (type p) "S");
          [destruct (String.eqb (parameter p) "Image Data")|]; apply IH.
Qed.

(** X11. Trailing line ends do not matter: two files whose lines are
    equal once their trailing newlines are stripped (a last line
    without line end, a doubled line end) give the same answer and the
    same state. *)
Theorem read_header_ignores_line_ends fs1 fs2 st :
  Forall2 (fun a b => rstrip a = rstrip b) (text_lines fs1) (text_lines fs2) ->
  read_header parse_parameter fs1 st = read_header parse_parameter fs2 st.
Proof.
  intros Hf. rewrite !read_header_walk.
  destruct (walk_same_tokens _ _ Hf Top (log_io IoOpenText st)) as [Hr Hs].
  destruct (walk parse_parameter Top (text_lines fs1) (log_io IoOpenText st))
    as [[r1 g1] s1].
  destruct (walk parse_parameter Top (text_lines fs2) (log_io IoOpenText st))
    as [[r2 g2] s2].
  simpl in Hr, Hs. subst. reflexivity.
Qed.

End HeaderInvariants.

Lemma rstrip_newline s : rstrip (s ++ String newline EmptyString) = rstrip s.
Proof.
  induction s as [|c s IH]; simpl.
  - reflexivity.
  - rewrite IH. reflexivity.
Qed.

(** * Further properties of the image decoder *)

Lemma lor_below a b n :
  0 < n -> 0 <= a < 2 ^ n -> 0 <= b < 2 ^ n -> 0 <= Z.lor a b < 2 ^ n.
Proof.
  intros Hn Ha Hb.
  assert (Hlog : forall x, 0 <= x < 2 ^ n -> Z.log2 x < n).
  { intros x Hx. destruct (Z.eq_dec x 0) as [->|Hx0].
    - simpl. exact Hn.
    - apply Z.log2_lt_pow2; lia. }
  assert (H0 : 0 <= Z.lor a b) by (apply Z.lor_nonneg; lia).
  split; [exact H0|].
  destruct (Z.eq_dec (Z.lor a b) 0) as [->|Hne].
  - apply Z.pow_pos_nonneg; lia.
  - apply Z.log2_lt_pow2; [lia|].
    rewrite Z.log2_lor by lia.
    apply Z.max_lub_lt; apply Hlog; assumption.
Qed.

Lemma byte_below b : 0 <= Z.of_N (Byte.to_N b) < 256.
Proof. pose proof (Byte.to_N_bounded b). lia. Qed.

Lemma int16_le_range b0 b1 : -32768 <= int16_le b0 b1 <= 32767.
Proof.
  unfold int16_le.
  pose proof (byte_below b0) as H0. pose proof (byte_below b1) as H1.
  assert (Hs : 0 <= Z.shiftl (Z.of_N (Byte.to_N b1)) 8 < 2 ^ 16).
  { rewrite Z.shiftl_mul_pow2 by lia. change (2 ^ 8) with 256.
    change (2 ^ 16) with 65536. lia. }
  assert (Ha : 0 <= Z.of_N (Byte.to_N b0) < 2 ^ 16)
    by (change (2 ^ 16) with 65536; lia).
  pose proof (lor_below _ _ 16 ltac:(lia) Ha Hs) as Hu.
  change (2 ^ 16) with 65536 in Hu.
  destruct (Z.ltb_spec
              (Z.lor (Z.of_N (Byte.to_N b0))
                     (Z.shiftl (Z.of_N (Byte.to_N b1)) 8)) 32768); lia.
Qed.

Lemma unpack_h_range n : forall buf,
  Forall (fun x => -32768 <= x <= 32767) (unpack_h n buf).
Proof.
  induction n as [|n IH]; intros buf; simpl; [constructor|].
  destruct buf as [|b0 [|b1 buf]]; try constructor.
  - apply int16_le_range.
  - apply IH.
Qed.

Lemma unpack_h_lookup n : forall buf k b0 b1,
  (k < n)%nat ->
  buf !! (2 * k)%nat = Some b0 -> buf !! (2 * k + 1)%nat = Some b1 ->
  unpack_h n buf !! k = Some (int16_le b0 b1).
Proof.
  induction n as [|n IH]; intros buf k b0 b1 Hk H0 H1; [lia|].
  destruct buf as [|c0 [|c1 buf]].
  - destruct k; discriminate.
  - destruct k as [|k]; simpl in *; [discriminate|].
    replace (k + S (k + 0))%nat with (S (2 * k)) in H0 by lia.
    discriminate.
  - destruct k as [|k].
    + simpl in *. congruence.
    + simpl. apply IH; [lia | |].
      * replace (2 * S k)%nat with (S (S (2 * k))) in H0 by lia. exact H0.
      * replace (2 * S k + 1)%nat with (S (S (2 * k + 1))) in H1 by lia.
        exact H1.
Qed.

Lemma bytes_read_lookup content O D i :
  (i < length (bytes_read content O D))%nat ->
  bytes_read content O D !! i = content !! (Z.to_nat O + i)%nat.
Proof.
  unfold bytes_read. destruct (Z.eqb D (-1)); intros Hi.
  - apply lookup_drop.
  - rewrite length_take in Hi.
    rewrite lookup_take_lt by lia. apply lookup_drop.
Qed.

Lemma settle_shape_ok size r c r' c' :
  0 <= size -> (r <? 0) && (c <? 0) = false ->
  settle_shape size r c = Some (r', c') ->
  0 <= r' /\ 0 <= c' /\ size = r' * c'.
Proof.
  unfold settle_shape. intros Hsize Hneg.
  destruct (Z.ltb_spec r 0).
  - destruct (Z.ltb_spec c 0); [discriminate Hneg|].
    destruct (Z.eqb_spec c 0); cbn [orb]; [discriminate|].
    destruct (Z.eqb_spec (size mod c) 0); cbn [negb]; [|discriminate].
    intros Hg; inversion Hg; subst.
    repeat split; try lia.
    + apply Z.div_pos; lia.
    + rewrite Z.mul_comm. apply Z.div_exact; lia.
  - destruct (Z.ltb_spec c 0).
    + destruct (Z.eqb_spec r 0); cbn [orb]; [discriminate|].
      destruct (Z.eqb_spec (size mod r) 0); cbn [negb]; [|discriminate].
      intros Hg; inversion Hg; subst.
      repeat split; try lia.
      * apply Z.div_pos; lia.
      * apply Z.div_exact; lia.
    + destruct (r * c <? 2 ^ 63); cbn [andb]; [|discriminate].
      destruct (Z.eqb_spec (r * c) size); [|discriminate].
      intros Hg; inversion Hg; subst. repeat split; lia.
Qed.

Lemma reshape_ok xs r c g :
  reshape xs r c = Ok g ->
  data g = xs /\
  0 <= fst (shape g) /\ 0 <= snd (shape g) /\
  Z.of_nat (length xs) = fst (shape g) * snd (shape g).
Proof.
  unfold reshape. destruct r as [r|?]; [|discriminate].
  destruct (negb (fits_int64 r)); [discriminate|].
  destruct c as [c|?]; [|discriminate].
  destruct (negb (fits_int64 c)); [discriminate|].
  destruct ((r <? 0) && (c <? 0)) eqn:Hneg; [discriminate|].
  cbv zeta.
  destruct (settle_shape (Z.of_nat (length xs)) r c) as [[r' c']|] eqn:Hs;
    [|discriminate].
  destruct (_ <=? _); [discriminate|].
  intros Hg; inversion Hg; subst; cbn [data shape fst snd].
  split; [reflexivity|].
  refine (settle_shape_ok _ _ _ _ _ _ Hneg Hs). lia.
Qed.

Lemma well_configured_fields cfg :
  well_configured cfg = true ->
  exists O D B L S,
    cfg !! "Data offset" = Some (VInt O) /\
    cfg !! "Data length" = Some (VInt D) /\
    cfg !! "Bytes/pixel" = Some (VInt B) /\
    cfg !! "Number of lines" = Some (VInt L) /\
    cfg !! "Samps/line" = Some (VInt S).
Proof.
  unfold well_configured, required_fields, numeric_field. simpl.
  intros H. repeat (apply andb_prop in H; destruct H as [? H]).
  repeat match goal with
         | H : match ?x with _ => _ end = true |- _ =>
             destruct x as [[?|?]|] eqn:?; try discriminate H; clear H
         end.
  eauto 10.
Qed.

Ltac refuted := let H := fresh in intros H; discriminate H.

(** What a successful decode went through. *)
Lemma decode_ok_inv fs cfg st g :
  fst (decode fs cfg st) = Ok g ->
  exists O D B vl vs num,
    cfg !! "Data offset" = Some (VInt O) /\
    cfg !! "Data length" = Some (VInt D) /\
    cfg !! "Bytes/pixel" = Some (VInt B) /\
    read_reached fs cfg = true /\
    int_truediv (VInt D) (VInt B) = Ok num /\
    0 <= num /\
    2 * num <= Z.of_nat (length (bytes_read (raw fs) O D)) /\
    reshape (unpack_h (Z.to_nat num) (bytes_read (raw fs) O D)) vl vs = Ok g.
Proof.
  rewrite decode_answer. unfold read_reached, seek_succeeds, read_accepts.
  destruct (cfg !! "Data offset") as [[o|?]|]; try refuted.
  destruct (fits_int64 o); cbn [negb]; [|refuted].
  destruct ((o <? 0) || _); [refuted|].
  destruct (cfg !! "Data length") as [[n|?]|];
    destruct (cfg !! "Bytes/pixel") as [[b|?]|]; try refuted.
  destruct (int_truediv (VInt n) (VInt b)) as [num|] eqn:Hdiv; [|refuted].
  destruct (fits_int64 n); cbn [negb]; [|refuted].
  destruct (n <? -1); [refuted|].
  destruct (_ <? n); [refuted|].
  destruct (max_read fs <? n); [refuted|].
  unfold unpack_from.
  destruct (Z.ltb_spec num 0); [refuted|].
  destruct (Z.ltb_spec (Z.of_nat (length (bytes_read (raw fs) o n)))
                       (2 * num)); [refuted|].
  destruct (cfg !! "Number of lines") as [vl|]; [|refuted].
  destruct (cfg !! "Samps/line") as [vs|]; [|refuted].
  intros Hr. exists o, n, b, vl, vs, num.
  repeat split; try assumption; reflexivity.
Qed.

Lemma read_image_data_ok_inv fs image_type st g :
  fst (read_image_data fs image_type st) = Ok g ->
  exists l,
    images st !! image_type = Some l /\
    fst (decode fs (default ∅ (heap st !! l)) (log_io IoOpenBinary st)) = Ok g.
Proof.
  unfold read_image_data.
  destruct (negb _); [discriminate|].
  destruct (images st !! image_type) as [l|]; [|discriminate].
  intros H. exists l. split; [reflexivity | exact H].
Qed.

(** X13. Whatever the configuration, an array that [read_image_data]
    returns is consistent: it has as many samples as its shape says,
    its dimensions are not negative, and every sample is a signed 16-bit
    value. *)
Theorem read_image_data_grid_consistent fs image_type st g :
  fst (read_image_data fs image_type st) = Ok g ->
  Z.of_nat (length (data g)) = fst (shape g) * snd (shape g) /\
  0 <= fst (shape g) /\ 0 <= snd (shape g) /\
  Forall (fun x => -32768 <= x <= 32767) (data g).
Proof.
  intros Hok.
  destruct (read_image_data_ok_inv _ _ _ _ Hok) as (l & _ & Hd).
  destruct (decode_ok_inv _ _ _ _ Hd)
    as (O & D & B & vl & vs & num & _ & _ & _ & _ & _ & _ & _ & Hr).
  destruct (reshape_ok _ _ _ _ Hr) as (Hdata & H1 & H2 & H3).
  rewrite Hdata. repeat split; try assumption.
  apply unpack_h_range.
Qed.

(** X14. The samples come from where the configuration points: in an
    array that [read_image_data] returns, sample [k] is the
    little-endian signed 16-bit value of the two bytes of the file at
    [Data offset + 2 k] and [Data offset + 2 k + 1]. *)
Theorem read_image_data_sample fs image_type st l cfg O g k b0 b1 :
  images st !! image_type = Some l ->
  heap st !! l = Some cfg ->
  cfg !! "Data offset" = Some (VInt O) ->
  fst (read_image_data fs image_type st) = Ok g ->
  (k < length (data g))%nat ->
  raw fs !! (Z.to_nat O + 2 * k)%nat = Some b0 ->
  raw fs !! (Z.to_nat O + 2 * k + 1)%nat = Some b1 ->
  data g !! k = Some (int16_le b0 b1).
Proof.
  intros Hl Hc HO Hok Hk H0 H1.
  destruct (read_image_data_ok_inv _ _ _ _ Hok) as (l' & Hl' & Hd).
  rewrite Hl in Hl'. inversion Hl'; subst l'. rewrite Hc in Hd. simpl in Hd.
  destruct (decode_ok_inv _ _ _ _ Hd)
    as (O' & D & B & vl & vs & num & HO' & _ & _ & _ & _ & Hq & Hfit & Hr).
  rewrite HO in HO'. inversion HO'; subst O'.
  destruct (reshape_ok _ _ _ _ Hr) as (Hdata & _).
  rewrite Hdata in Hk |- *.
  rewrite unpack_h_length in Hk by lia.
  apply unpack_h_lookup; [exact Hk | |].
  - rewrite bytes_read_lookup by lia. exact H0.
  - rewrite bytes_read_lookup by lia.
    rewrite Nat.add_assoc. exact H1.
Qed.

(** The file operations a decode issues, read off the dictionary. *)
Lemma decode_log fs cfg st :
  io_log (snd (decode fs cfg st)) =
  app (io_log st)
   (match cfg !! "Data offset" with
    | Some (VInt o) =>
        if negb (fits_int64 o) then []
        else
          IoSeek o ::
          (if (o <? 0) || (max_offset fs <? o) then []
           else match cfg !! "Data length", cfg !! "Bytes/pixel" with
                | Some (VInt n), Some (VInt b) =>
                    if is_ok (int_truediv (VInt n) (VInt b))
                       && read_accepts fs n
                    then [IoRead n] else []
                | _, _ => []
                end)
    | _ => []
    end).
Proof.
  unfold decode, mbind, M_bind, bind, lift, getitem, read_accepts.
  destruct (cfg !! "Data offset") as [[o|?]|];
    try (rewrite app_nil_r; reflexivity).
  unfold file_seek, mbind, M_bind, bind, emit, throw, ret.
  destruct (fits_int64 o); cbn [negb];
    [|rewrite app_nil_r; reflexivity].
  destruct ((o <? 0) || (max_offset fs <? o)); [reflexivity|].
  destruct (cfg !! "Data length") as [[n|?]|];
    destruct (cfg !! "Bytes/pixel") as [[b|?]|]; try reflexivity.
  destruct (int_truediv (VInt n) (VInt b)) as [num|e]; cbn [is_ok andb];
    [|reflexivity].
  unfold file_read, mbind, M_bind, bind, emit, throw, ret.
  destruct (fits_int64 n); cbn [negb andb]; [|reflexivity].
  destruct (n <? -1); cbn [negb andb]; [reflexivity|].
  destruct (_ <? n); cbn [negb andb]; [reflexivity|].
  destruct (max_read fs <? n); cbn [negb andb]; [reflexivity|].
  cbv beta iota.
  destruct (unpack_from _ _); cbv beta iota;
    [|cbn; rewrite <- app_assoc; reflexivity].
  destruct (cfg !! "Number of lines"); cbv beta iota;
    [|cbn; rewrite <- app_assoc; reflexivity].
  destruct (cfg !! "Samps/line"); cbn; rewrite <- app_assoc; reflexivity.
Qed.

Lemma read_image_data_log fs image_type st l cfg :
  In image_type supported_image_types ->
  images st !! image_type = Some l ->
  heap st !! l = Some cfg ->
  io_log (snd (read_image_data fs image_type st))
  = io_log (snd (decode fs cfg (log_io IoOpenBinary st))).
Proof.
  intros Hin Hl Hc. unfold read_image_data.
  assert (He : existsb (String.eqb image_type) supported_image_types = true).
  { apply existsb_exists. exists image_type. split; [exact Hin|].
    apply String.eqb_refl. }
  rewrite He, Hl, Hc. reflexivity.
Qed.

(** X15. For a registered channel on which the decode gets as far as the
    read (the seek to [Data offset] is accepted: the offset is a number
    that fits the machine word, is not negative and is within the limit
    of the file system; the length and the bytes per pixel are numbers
    whose division does not raise; a read of [Data length] bytes is
    accepted: the length is at least [-1] and a buffer of that size can
    be allocated), one call of [read_image_data] opens the file, seeks
    once, to [Data offset], and reads once, [Data length] bytes; nothing
    else is asked of the file, whether the decode then succeeds or
    fails. *)
Theorem read_image_data_file_operations fs image_type st l cfg O D :
  In image_type supported_image_types ->
  images st !! image_type = Some l ->
  heap st !! l = Some cfg ->
  read_reached fs cfg = true ->
  cfg !! "Data offset" = Some (VInt O) ->
  cfg !! "Data length" = Some (VInt D) ->
  io_log (snd (read_image_data fs image_type st))
  = (io_log st ++ [IoOpenBinary; IoSeek O; IoRead D])%list.
Proof.
  intros Hin Hl Hc Hr HO HD.
  rewrite (read_image_data_log _ _ _ _ _ Hin Hl Hc), decode_log.
  unfold read_reached, seek_succeeds in Hr. rewrite HO, HD in Hr |- *.
  destruct (cfg !! "Bytes/pixel") as [[B|?]|];
    try (rewrite andb_false_r in Hr; discriminate Hr).
  apply andb_prop in Hr. destruct Hr as [Hs Hr].
  apply andb_prop in Hs. destruct Hs as [Hs1 Hs2].
  apply negb_true_iff in Hs2. rewrite Hs1, Hs2, Hr. cbn [negb].
  cbn. rewrite <- app_assoc. reflexivity.
Qed.

(** X16. Otherwise the file is never read: when the decode does not get
    as far as the read, [read_image_data] raises, and all it has asked of
    the file is to open it, or to open it and to seek once, to
    [Data offset]. *)
Theorem read_image_data_reads_nothing fs image_type st l cfg :
  In image_type supported_image_types ->
  images st !! image_type = Some l ->
  heap st !! l = Some cfg ->
  read_reached fs cfg = false ->
  is_ok (fst (read_image_data fs image_type st)) = false /\
  (io_log (snd (read_image_data fs image_type st))
   = (io_log st ++ [IoOpenBinary])%list \/
   exists o,
     cfg !! "Data offset" = Some (VInt o) /\
     io_log (snd (read_image_data fs image_type st))
     = (io_log st ++ [IoOpenBinary; IoSeek o])%list).
Proof.
  intros Hin Hl Hc Hr. split.
  - rewrite (read_image_data_registered _ _ _ _ _ Hin Hl Hc).
    destruct (fst (decode fs cfg (log_io IoOpenBinary st))) as [g|e] eqn:Hd;
      [|reflexivity].
    destruct (decode_ok_inv _ _ _ _ Hd)
      as (O & D & B & vl & vs & num & _ & _ & _ & Hreach & _).
    congruence.
  - rewrite (read_image_data_log _ _ _ _ _ Hin Hl Hc), decode_log.
    unfold read_reached, seek_succeeds in Hr.
    change (io_log (log_io IoOpenBinary st))
      with (io_log st ++ [IoOpenBinary])%list.
    destruct (cfg !! "Data offset") as [[o|?]|];
      try (left; rewrite app_nil_r; reflexivity).
    destruct (fits_int64 o); cbn [negb andb] in Hr |- *;
      [|left; rewrite app_nil_r; reflexivity].
    right. exists o. split; [reflexivity|].
    rewrite <- app_assoc. cbn [app]. do 2 f_equal.
    destruct ((o <? 0) || (max_offset fs <? o)); cbn [negb andb] in Hr |- *;
      [reflexivity|].
    destruct (cfg !! "Data length") as [[D|?]|];
      destruct (cfg !! "Bytes/pixel") as [[B|?]|]; try reflexivity.
    rewrite Hr. reflexivity.
Qed.

(** * Parsing twice, and parsing then decoding *)

Section Composition.

Variable parse_parameter : string -> outcome ParameterRecord.

(** X8. Whether [read_header] returns or raises, and which exception,
    is decided by the file alone: it does not depend on what the parser
    already holds. *)
Theorem read_header_outcome_state_free fs st1 st2 :
  fst (read_header parse_parameter fs st1)
  = fst (read_header parse_parameter fs st2).
Proof.
  rewrite !read_header_walk.
  pose proof (walk_outcome_state_free parse_parameter (text_lines fs)
                Top Top (log_io IoOpenText st1) (log_io IoOpenText st2)
                eq_refl) as H.
  destruct (walk parse_parameter Top (text_lines fs) (log_io IoOpenText st1))
    as [[r1 g1] s1].
  destruct (walk parse_parameter Top (text_lines fs) (log_io IoOpenText st2))
    as [[r2 g2] s2].
  simpl in H. inversion H; subst. reflexivity.
Qed.

(** X12. [_read_image_header] reads up to the first header record: it
    answers that record, leaves the lines after it unread and has
    applied the records before it to a new dictionary; when the lines
    run out before any header it answers [None]. *)
Theorem _read_image_header_stops_at_header body rs st :
  tokenized parse_parameter body rs -> section_body rs ->
  let l := length (heap st) in
  let st' := run_section l rs (snd (alloc_dict st)) in
  (forall line h rest,
     parse_parameter (rstrip line) = Ok h -> type h = "H" ->
     _read_image_header parse_parameter (body ++ line :: rest)%list st
     = (Ok (Some h), rest, st')) /\
  _read_image_header parse_parameter body st = (Ok None, [], st') /\
  heap st' !! l = Some (section_dict rs ∅).
Proof.
  intros Htok Hs l st'.
  destruct (_read_image_header_body parse_parameter body rs st Htok Hs)
    as (Hrun & Hheap & _).
  split; [|split].
  - intros line h rest Hp Hh. rewrite Hrun. simpl. rewrite Hp, Hh.
    reflexivity.
  - rewrite <- (app_nil_r body) at 1. rewrite Hrun. reflexivity.
  - exact Hheap.
Qed.

(** X3. Parsing, then decoding: after [read_header] on a fresh parser
    and a header that reaches its top-level ['File list end'],
    [read_image_data] for one of the three names answers what the decode
    of the dictionary that the value Document holds under that name
    answers (on any state: the answer of a decode does not depend on
    it), and the not-in-file [ValueError] when it holds none. *)
Theorem read_image_data_after_read_header fs hdr rest rs image_type st0 :
  text_lines fs = (hdr ++ rest)%list ->
  tokenized parse_parameter hdr rs ->
  classify false rs = Terminated ->
  In image_type supported_image_types ->
  fst (read_image_data fs image_type
         (snd (read_header parse_parameter fs init)))
  = match fst (document_of None rs ∅ ∅) !! image_type with
    | Some cfg => fst (decode fs cfg st0)
    | None =>
        Raise (ValueError ("Image type " ++ image_type ++ " not in file."))
    end.
Proof.
  intros Hfs Htok Hc Hin.
  assert (Hrep : represents Top None (log_io IoOpenText init) ∅).
  { split; [|split; [|exact I]].
    - intros n. unfold image_dict. simpl. rewrite !lookup_empty. reflexivity.
    - apply wf_state_init. }
  destruct (walk_document parse_parameter hdr rs Htok Top None _ ∅ rest
              Hrep Hc) as (f' & st' & Hw & Hview & _).
  rewrite read_header_walk, Hfs, Hw. simpl.
  pose proof (Hview image_type) as Hv.
  change (config (log_io IoOpenText init)) with (∅ : dict) in Hv.
  rewrite <- Hv. unfold image_dict.
  assert (He : existsb (String.eqb image_type) supported_image_types = true).
  { apply existsb_exists. exists image_type. split; [exact Hin|].
    apply String.eqb_refl. }
  destruct (images st' !! image_type) as [l|] eqn:Hl; simpl.
  - destruct (heap st' !! l) as [cfg|] eqn:Hh.
    + rewrite (read_image_data_registered _ _ _ _ _ Hin Hl Hh).
      apply (quiet_decode fs cfg st0).
    + exfalso.
      assert (Hwf : wf_state st').
      { refine (walk_wf parse_parameter _ _ _ _ _ _ _ _ Hw);
          [apply wf_state_init | intros; discriminate]. }
      apply Hwf in Hl. apply lookup_ge_None in Hh. lia.
  - unfold read_image_data. rewrite He, Hl. reflexivity.
Qed.

End Composition.

(** ** Parsing the same header twice *)

Lemma lookup_channel_view st n : channel_view st !! n = image_dict st n.
Proof. unfold channel_view, image_dict. apply lookup_omap. Qed.

(** Under a name the value Document holds either a dictionary that the
    records decide, or what it held before. *)
Lemma document_of_channel rs : forall cur n,
  (exists d, forall channels g,
     fst (document_of cur rs channels g) !! n = Some d) \/
  (forall channels g,
     fst (document_of cur rs channels g) !! n = channels !! n).
Proof.
  induction rs as [|p rs IH]; intros cur n; simpl.
  - right. reflexivity.
  - destruct (String.eqb (type p) "H").
    + destruct (String.eqb (header p) "File list end"); [right; reflexivity|].
      destruct (String.eqb (header p) "Ciao image list"); apply IH.
    + destruct cur as [[names d]|].
      * destruct (IH (Some (names_step names p, dict_step d p)) n)
          as [[d0 Hd0]|Hkeep].
        -- left. exists d0. intros channels g. apply Hd0.
        -- destruct (decide (n ∈ names_step names p)) as [Hin|Hin].
           ++ left. exists (dict_step d p). intros channels g.
              rewrite Hkeep, lookup_publish.
              destruct (decide (n ∈ names_step names p)); [reflexivity|].
              contradiction.
           ++ right. intros channels g. rewrite Hkeep, lookup_publish.
              destruct (decide (n ∈ names_step names p)); [contradiction|].
              reflexivity.
      * destruct (String.eqb (type p) "S"); [apply IH|].
        destruct (IH None n) as [[d0 Hd0]|Hkeep].
        -- left. exists d0. intros channels g. apply Hd0.
        -- right. intros channels g. apply Hkeep.
Qed.

Lemma document_of_global rs : forall cur k,
  (exists v, forall channels g,
     snd (document_of cur rs channels g) !! k = Some v) \/
  (forall channels g, snd (document_of cur rs channels g) !! k = g !! k).
Proof.
  induction rs as [|p rs IH]; intros cur k; simpl.
  - right. reflexivity.
  - destruct (String.eqb (type p) "H").
    + destruct (String.eqb (header p) "File list end"); [right; reflexivity|].
      destruct (String.eqb (header p) "Ciao image list"); apply IH.
    + destruct cur as [[names d]|].
      * destruct (IH (Some (names_step names p, dict_step d p)) k)
          as [[v Hv]|Hkeep].
        -- left. exists v. intros channels g. apply Hv.
        -- right. intros channels g. apply Hkeep.
      * destruct (String.eqb (type p) "S"); [apply IH|].
        destruct (IH None k) as [[v Hv]|Hkeep].
        -- left. exists v. intros channels g. apply Hv.
        -- destruct (decide (parameter p = k)) as [<-|Hne].
           ++ left. exists (hard_value p). intros channels g.
              rewrite Hkeep. apply lookup_insert_eq.
           ++ right. intros channels g. rewrite Hkeep.
              apply lookup_insert_ne. exact Hne.
Qed.

Lemma document_of_twice cur rs channels g channels' g' :
  fst (document_of cur rs (fst (document_of cur rs channels g)) g')
  = fst (document_of cur rs channels g) /\
  snd (document_of cur rs channels' (snd (document_of cur rs channels g)))
  = snd (document_of cur rs channels g).
Proof.
  split; apply map_eq; intros k.
  - destruct (document_of_channel rs cur k) as [[d Hd]|Hkeep].
    + rewrite !Hd. reflexivity.
    + rewrite Hkeep. reflexivity.
  - destruct (document_of_global rs cur k) as [[v Hv]|Hkeep].
    + rewrite !Hv. reflexivity.
    + rewrite Hkeep. reflexivity.
Qed.

(** ** A header that runs out *)

Section RunsOut.

Variable parse_parameter : string -> outcome ParameterRecord.

(** A stream that runs out is read to its last line, and what the walk
    leaves is the Document of all its records. *)
Lemma walk_document_runs_out f rs :
  tokenized parse_parameter f rs ->
  forall m cur st channels,
    represents m cur st channels ->
    classify (in_section m) rs = RunsOutInSection \/
    classify (in_section m) rs = RunsOutAtTop ->
    exists r st',
      walk parse_parameter m f st = (r, [], st') /\
      (forall n,
         image_dict st' n
         = fst (document_of cur rs channels (config st)) !! n) /\
      config st' = snd (document_of cur rs channels (config st)).
Proof.
  induction 1 as [|line p f rs Hp Hf IH]; intros m cur st channels Hrep Hc.
  - destruct m; simpl.
    + exists (Ok false), st. split; [reflexivity|].
      split; [apply Hrep | reflexivity].
    + exists (Raise AttributeError), st. split; [reflexivity|].
      split; [apply Hrep | reflexivity].
  - destruct (String.eqb (type p) "H") eqn:Ht.
    + simpl in Hc |- *. rewrite Hp, Ht in *.
      destruct (String.eqb (header p) "File list end").
      { destruct Hc; discriminate. }
      destruct (String.eqb (header p) "Ciao image list").
      * exact (IH (InSection (length (heap st))) (Some ([], ∅)) _ channels
                 (represents_alloc _ _ _ _ Hrep) Hc).
      * exact (IH Top None st channels (represents_top _ _ _ _ Hrep) Hc).
    + destruct m as [|l].
      * destruct cur as [[names d]|]; [destruct Hrep as (_ & _ & []) |].
        simpl in Hc |- *. rewrite Hp, Ht in *. simpl in Hc.
        destruct (version_rejected p); [destruct Hc; discriminate|].
        destruct (String.eqb (type p) "S").
        -- exact (IH Top None st channels Hrep Hc).
        -- exact (IH Top None _ channels
                    (represents_set_config _ _ _ _ _ _ Hrep) Hc).
      * destruct cur as [[names d]|]; [|destruct Hrep as (_ & _ & [])].
        rewrite (walk_section_step _ _ _ _ _ _ Hp Ht).
        simpl in Hc. rewrite Ht in Hc. simpl in Hc.
        pose proof (IH (InSection l) _ _ _
                      (represents_section_step _ _ _ _ _ p Hrep) Hc) as Hres.
        rewrite section_step_config in Hres.
        simpl. rewrite Ht. exact Hres.
Qed.

(** C1, as the code has it. When the records run out inside a
    ['Ciao image list'] section, [read_header] fails: [_read_image_header]
    returns [None] and [_handle_parameter] raises [AttributeError] on it.
    When they run out at top level, [read_header] returns normally, like
    after a ['File list end']. Either way the parser keeps what the
    records built: after the call every name of [self.images] sees the
    dictionary, and [self.config] holds the entries, that the Document
    computed from all the records of the stream on top of what the parser
    held before has; the dictionary of the section that was cut short is
    there with the attributes read so far. *)
Theorem read_header_stream_runs_out fs rs st :
  tokenized parse_parameter (text_lines fs) rs ->
  classify false rs = RunsOutInSection \/ classify false rs = RunsOutAtTop ->
  let r := read_header parse_parameter fs st in
  (classify false rs = RunsOutInSection -> fst r = Raise AttributeError) /\
  (classify false rs = RunsOutAtTop -> fst r = Ok tt) /\
  (wf_state st ->
   (forall n,
      image_dict (snd r) n
      = fst (document_of None rs (channel_view st) (config st)) !! n) /\
   config (snd r) = snd (document_of None rs (channel_view st) (config st))).
Proof.
  intros Htok Hends r.
  pose proof (walk_classify parse_parameter _ _ Htok Top
                (log_io IoOpenText st) []) as Hw.
  rewrite app_nil_r in Hw. simpl in Hw.
  unfold r. rewrite read_header_walk.
  split; [|split].
  - intros Hc. rewrite Hc in Hw.
    destruct Hw as (l & st' & Hw). rewrite Hw. reflexivity.
  - intros Hc. rewrite Hc in Hw.
    destruct Hw as (st' & Hw). rewrite Hw. reflexivity.
  - intros Hwf.
    assert (Hrep : represents Top None (log_io IoOpenText st)
                     (channel_view st)).
    { split; [|split; [exact Hwf | exact I]].
      intros n. symmetry. exact (lookup_channel_view st n). }
    destruct (walk_document_runs_out _ _ Htok Top None _ _ Hrep Hends)
      as (r0 & st' & Hwalk & Hview & Hcfg).
    rewrite Hwalk. split; [exact Hview | exact Hcfg].
Qed.

End RunsOut.

Section Twice.

Variable parse_parameter : string -> outcome ParameterRecord.

(** X2. Parsing the same header a second time changes nothing that can
    be looked up: on a header that reaches its top-level
    ['File list end'], after a second [read_header] every name sees a
    dictionary with the same content as after the first, and
    [self.config] is the same. (The dictionaries are new objects.) *)
Theorem read_header_twice fs hdr rest rs st :
  text_lines fs = (hdr ++ rest)%list ->
  tokenized parse_parameter hdr rs ->
  classify false rs = Terminated ->
  wf_state st ->
  let st1 := snd (read_header parse_parameter fs st) in
  let st2 := snd (read_header parse_parameter fs st1) in
  fst (read_header parse_parameter fs st1) = Ok tt /\
  (forall n, image_dict st2 n = image_dict st1 n) /\
  config st2 = config st1.
Proof.
  intros Hfs Htok Hc Hwf st1 st2.
  assert (Hrep : represents Top None (log_io IoOpenText st) (channel_view st)).
  { split; [|split; [exact Hwf | exact I]].
    intros n. symmetry. exact (lookup_channel_view st n). }
  destruct (walk_document parse_parameter hdr rs Htok Top None _ _ rest
              Hrep Hc) as (f1 & s1 & Hw1 & Hview1 & Hcfg1).
  assert (Hst1 : st1 = s1).
  { unfold st1. rewrite read_header_walk, Hfs, Hw1. reflexivity. }
  assert (Hwf1 : wf_state s1).
  { refine (walk_wf parse_parameter _ _ _ _ _ _ _ _ Hw1);
      [exact Hwf | intros; discriminate]. }
  assert (Hrep1 : represents Top None (log_io IoOpenText s1)
            (fst (document_of None rs (channel_view st)
                    (config (log_io IoOpenText st))))).
  { split; [|split; [exact Hwf1 | exact I]]. exact Hview1. }
  destruct (walk_document parse_parameter hdr rs Htok Top None _ _ rest
              Hrep1 Hc) as (f2 & s2 & Hw2 & Hview2 & Hcfg2).
  assert (Hst2 : st2 = s2).
  { unfold st2. rewrite Hst1, read_header_walk, Hfs, Hw2. reflexivity. }
  rewrite Hst2, Hst1.
  destruct (document_of_twice None rs (channel_view st)
              (config (log_io IoOpenText st))
              (fst (document_of None rs (channel_view st)
                      (config (log_io IoOpenText st))))
              (config (log_io IoOpenText s1))) as [Ht1 Ht2].
  split; [|split].
  - rewrite read_header_walk, Hfs, Hw2. reflexivity.
  - intros n. rewrite Hview2, Hview1, Ht1. reflexivity.
  - rewrite Hcfg2.
    change (config (log_io IoOpenText s1)) with (config s1).
    rewrite Hcfg1 at 1. rewrite Ht2. symmetry. exact Hcfg1.
Qed.

End Twice.

(** ** The further properties on the sample files *)

Lemma sample_header_tokenized :
  tokenized sample_parse sample_header sample_records.
Proof. repeat constructor. Qed.

Lemma wf_state_parsed fs : wf_state (parsed fs).
Proof.
  apply (read_header_wf sample_parse fs init
           (fst (read_header sample_parse fs init)) (parsed fs) wf_state_init).
  unfold parsed. apply surjective_pairing.
Qed.

Lemma read_header_builds_document_witness :
  exists st',
    read_header sample_parse sample_file init = (Ok tt, st') /\
    (forall n,
       image_dict st' n = fst (document_of None sample_records ∅ ∅) !! n) /\
    config st' = snd (document_of None sample_records ∅ ∅).
Proof.
  apply (read_header_builds_document sample_parse sample_file
           sample_header [payload_line] sample_records).
  - reflexivity.
  - repeat constructor.
  - reflexivity.
Defined.

Lemma read_header_twice_witness :
  let st1 := snd (read_header sample_parse sample_file init) in
  let st2 := snd (read_header sample_parse sample_file st1) in
  fst (read_header sample_parse sample_file st1) = Ok tt /\
  (forall n, image_dict st2 n = image_dict st1 n) /\
  config st2 = config st1.
Proof.
  apply (read_header_twice sample_parse sample_file
           sample_header [payload_line] sample_records init).
  - reflexivity.
  - repeat constructor.
  - reflexivity.
  - intros name l H. simpl in H. rewrite lookup_empty in H. discriminate.
Defined.

Lemma read_image_data_after_read_header_witness :
  fst (read_image_data sample_file "Height"
         (snd (read_header sample_parse sample_file init)))
  = match fst (document_of None sample_records ∅ ∅) !! "Height" with
    | Some cfg => fst (decode sample_file cfg init)
    | None => Raise (ValueError ("Image type " ++ "Height" ++ " not in file."))
    end.
Proof.
  apply (read_image_data_after_read_header sample_parse sample_file
           sample_header [payload_line] sample_records "Height" init).
  - reflexivity.
  - repeat constructor.
  - reflexivity.
  - simpl. tauto.
Defined.

Lemma accessors_after_read_header_witness :
  let st' := snd (read_header sample_parse sample_file init) in
  (is_Some (height st')
   <-> "Height" ∈ observed_designations false sample_records) /\
  (is_Some (amplitude st')
   <-> "Amplitude" ∈ observed_designations false sample_records) /\
  (is_Some (phase st')
   <-> "Phase" ∈ observed_designations false sample_records) /\
  (forall name l, images_get st' name = Some l -> is_Some (heap st' !! l)).
Proof.
  apply (accessors_after_read_header sample_parse sample_file
           sample_header [payload_line] sample_records).
  - reflexivity.
  - repeat constructor.
  - reflexivity.
Defined.

Lemma read_header_ignores_lines_after_end_witness :
  read_header_loop sample_parse (sample_header ++ [payload_line])
    (log_io IoOpenText init)
  = (Ok true, ([] ++ [payload_line])%list, parsed sample_file).
Proof.
  apply (read_header_ignores_lines_after_end sample_parse sample_header
           [payload_line] (log_io IoOpenText init) [] (parsed sample_file)).
  vm_compute. reflexivity.
Defined.

Lemma read_header_propagates_tokenizer_error_witness :
  fst (read_header sample_parse bad_line_file init)
  = Raise (ValueError "not a parameter line") /\
  exists st',
    read_header_loop sample_parse (text_lines bad_line_file)
      (log_io IoOpenText init)
    = (Raise (ValueError "not a parameter line"),
       [nl "\*File list end"], st').
Proof.
  apply (read_header_propagates_tokenizer_error sample_parse bad_line_file
           (map nl ["\*File list"; "\Version: 0x05120130"])
           [ header_record "File list";
             scalar_record "Version" (VStr "0x05120130") ]
           payload_line [nl "\*File list end"]
           (ValueError "not a parameter line") init).
  - reflexivity.
  - repeat constructor.
  - left. reflexivity.
  - reflexivity.
Defined.

Lemma read_header_outcome_ignores_section_record_witness :
  fst (read_header sample_parse section_version_file init)
  = fst (read_header sample_parse section_plain_file init).
Proof.
  apply (read_header_outcome_ignores_section_record sample_parse
           section_version_file section_plain_file
           (map nl ["\*File list"; "\*Ciao image list"])
           [header_record "File list"; header_record "Ciao image list"]
           (nl "\Version: 0x04300000")
           (scalar_record "Version" (VStr "0x04300000"))
           (map nl ["\@2:Image Data: S [Height]"; "\*File list end"])
           init).
  - reflexivity.
  - reflexivity.
  - repeat constructor.
  - reflexivity.
  - reflexivity.
  - simpl. discriminate.
Defined.

Lemma read_header_only_adds_witness :
  let st := parsed sample_file in
  let st' := snd (read_header sample_parse sample_file st) in
  dom (images st) ⊆ dom (images st') /\
  dom (config st) ⊆ dom (config st') /\
  forall l, (l < length (heap st))%nat -> heap st' !! l = heap st !! l.
Proof.
  exact (read_header_only_adds sample_parse sample_file (parsed sample_file)).
Defined.

Lemma read_header_ignores_line_ends_witness :
  read_header sample_parse sample_file init
  = read_header sample_parse bare_lines_file init.
Proof.
  apply (read_header_ignores_line_ends sample_parse sample_file
           bare_lines_file init).
  repeat constructor.
Defined.

Lemma _read_image_header_stops_at_header_witness :
  let st' := run_section 0%nat [scalar_record "Data offset" (VInt 4)]
               (snd (alloc_dict init)) in
  (forall line h rest,
     sample_parse (rstrip line) = Ok h -> type h = "H" ->
     _read_image_header sample_parse
       ([nl "\Data offset: 4"] ++ line :: rest)%list init
     = (Ok (Some h), rest, st')) /\
  _read_image_header sample_parse [nl "\Data offset: 4"] init
  = (Ok None, [], st') /\
  heap st' !! 0%nat
  = Some (section_dict [scalar_record "Data offset" (VInt 4)] ∅).
Proof.
  apply (_read_image_header_stops_at_header sample_parse
           [nl "\Data offset: 4"] [scalar_record "Data offset" (VInt 4)] init).
  - repeat constructor.
  - repeat constructor. simpl. discriminate.
Defined.

Lemma read_image_data_grid_consistent_witness :
  let g := {| shape := (2, 2); data := [1; -1; -32768; 32767] |} in
  Z.of_nat (length (data g)) = fst (shape g) * snd (shape g) /\
  0 <= fst (shape g) /\ 0 <= snd (shape g) /\
  Forall (fun x => -32768 <= x <= 32767) (data g).
Proof.
  apply (read_image_data_grid_consistent sample_file "Height"
           (parsed sample_file)).
  vm_compute. reflexivity.
Defined.

Lemma read_image_data_sample_witness :
  data {| shape := (2, 2); data := [1; -1; -32768; 32767] |} !! 2%nat
  = Some (int16_le x00 x80).
Proof.
  apply (read_image_data_sample sample_file "Height" (parsed sample_file)
           0%nat sample_config 4).
  - vm_compute. reflexivity.
  - vm_compute. reflexivity.
  - vm_compute. reflexivity.
  - vm_compute. reflexivity.
  - simpl. lia.
  - reflexivity.
  - reflexivity.
Defined.

Lemma read_image_data_file_operations_witness :
  io_log (snd (read_image_data sample_file "Height" (parsed sample_file)))
  = (io_log (parsed sample_file)
     ++ [IoOpenBinary; IoSeek 4; IoRead 8])%list.
Proof.
  apply (read_image_data_file_operations sample_file "Height"
           (parsed sample_file) 0%nat sample_config 4 8).
  - simpl. tauto.
  - vm_compute. reflexivity.
  - vm_compute. reflexivity.
  - vm_compute. reflexivity.
  - vm_compute. reflexivity.
  - vm_compute. reflexivity.
Defined.

Lemma read_image_data_reads_nothing_witness :
  is_ok (fst (read_image_data offset_only_file "Height"
                (parsed offset_only_file))) = false /\
  (io_log (snd (read_image_data offset_only_file "Height"
                  (parsed offset_only_file)))
   = (io_log (parsed offset_only_file) ++ [IoOpenBinary])%list \/
   exists o,
     offset_only_config !! "Data offset" = Some (VInt o) /\
     io_log (snd (read_image_data offset_only_file "Height"
                    (parsed offset_only_file)))
     = (io_log (parsed offset_only_file) ++ [IoOpenBinary; IoSeek o])%list).
Proof.
  apply (read_image_data_reads_nothing offset_only_file "Height"
           (parsed offset_only_file) 0%nat offset_only_config).
  - simpl. tauto.
  - vm_compute. reflexivity.
  - vm_compute. reflexivity.
  - vm_compute. reflexivity.
Defined.

Lemma read_header_stream_runs_out_witness :
  let rs := [ header_record "File list";
              scalar_record "Version" (VStr "0x05120130");
              header_record "Ciao image list";
              scalar_record "Data offset" (VInt 4) ] in
  let r := read_header sample_parse unterminated_section_file init in
  fst r = Raise AttributeError /\
  (forall n,
     image_dict (snd r) n
     = fst (document_of None rs (channel_view init) (config init)) !! n) /\
  config (snd r) = snd (document_of None rs (channel_view init) (config init)).
Proof.
  intros rs r.
  destruct (read_header_stream_runs_out sample_parse
              unterminated_section_file rs init
              ltac:(repeat constructor) (or_introl eq_refl))
    as (Hin & _ & Hst).
  split; [apply Hin; reflexivity | apply Hst, wf_state_init].
Defined.
